(** * Kubernetes pod eventer and Fleet hints command

    A shallow embedding of
      - internal/pkg/composable/providers/kubernetes/pod.go
      - internal/pkg/fleetapi/hints_cmd.go
    and the properties of their behaviour.

    Go values are modelled directly: [map[string]interface{}] trees are finite
    maps from strings to values, a function with side effects is a function
    over the trace of the calls it makes to its collaborators (registry,
    watchers, timers, transport, standard output), and a run-time panic is an
    outcome of its own. *)

From Stdlib Require Import String Ascii ZArith List DecimalString Lia.
From stdpp Require Import base option list gmap strings.

Local Open Scope string_scope.
Local Open Scope list_scope.
Local Open Scope Z_scope.

(* ===================================================================== *)
(** ** Errors *)
(* ===================================================================== *)

(** The error values the two files create or inspect.  [ErrConnRefused] and
    [ErrTooManyRequests] are the sentinel variables of package fleetapi. *)
#[warnings="-register-all"]
Inductive error : Type :=
| ErrMsg (msg : string)                    (* errors.New("...") *)
| ErrWrap (cause : error) (msg : string)   (* errors.New(err, "...") *)
| MultiError (errs : list error)           (* *multierror.Error *)
| ErrURL (e : url_Error)                   (* *url.Error *)
| ErrNetOp (e : net_OpError)               (* *net.OpError *)
| ErrConnRefused
| ErrTooManyRequests
| ErrKeyNotFound                           (* mapstr.ErrKeyNotFound *)
with url_Error : Type :=
| Build_url_Error (url_Op url_URL : string) (url_Err : error)
with net_OpError : Type :=
| Build_net_OpError (net_Op : string) (net_Err : error).

Definition url_Err_of (u : url_Error) : error :=
  match u with Build_url_Error _ _ e => e end.

(** multierror.Append(err, e): a nil [err] starts a fresh list. *)
Definition multierror_Append (err : option error) (e : error) : option error :=
  match err with
  | None => Some (MultiError [e])
  | Some (MultiError errs) => Some (MultiError (errs ++ [e]))
  | Some other => Some (MultiError [other; e])
  end.

(** What is handed to errors.As as its target: the files pass the pointer
    variable itself, so the target is a (possibly nil) pointer. *)
Inductive as_target : Type :=
| AsURLError (p : option url_Error)
| AsNetOpError (p : option net_OpError).

(** A call either returns or panics. *)
Inductive outcome (A : Type) : Type :=
| Done (a : A)
| Panicked (msg : string).
Arguments Done {A} a.
Arguments Panicked {A} msg.

Definition nil_map_write : string := "assignment to entry in nil map".
Definition nil_dereference : string := "invalid memory address or nil pointer dereference".
Definition bad_type_assertion : string := "interface conversion: interface {} is not mapstr.M".

(* ===================================================================== *)
(** ** mapstr.M and safemapstr *)
(* ===================================================================== *)

(** [interface{}] values held in a [mapstr.M]: strings and nested maps. *)
#[warnings="-register-all"]
Inductive value : Type :=
| VStr (s : string)
| VMap (m : gmap string value).

Abbreviation M := (gmap string value).

(** [idx := strings.IndexRune(key, '.')], giving [key[:idx]] and
    [key[idx+1:]]; [None] when there is no dot. *)
Fixpoint cut_dot (key : string) : option (string * string) :=
  match key with
  | EmptyString => None
  | String c rest =>
      if Ascii.eqb c "."%char then Some (EmptyString, rest)
      else match cut_dot rest with
           | Some (k, tl) => Some (String c k, tl)
           | None => None
           end
  end.

Definition tryToMapStr (v : value) : option M :=
  match v with VMap m => Some m | VStr _ => None end.

Definition alternativeKey : string := "value".

(** safemapstr.Put: walks the dotted key, creating intermediate maps; a value
    that is in the way of a map is kept under "value".  The loop of the
    library runs once per key segment, [fuel] bounds it by the key length. *)
Fixpoint safemapstr_put (fuel : nat) (data : M) (key : string) (v : value) : M :=
  match data !! key with
  | Some old =>
      match tryToMapStr old with
      | Some oldMap => <[key := VMap (<[alternativeKey := v]> oldMap)]> data
      | None => <[key := v]> data
      end
  | None =>
      match cut_dot key with
      | None => <[key := v]> data
      | Some (k, rest) =>
          let d := default (VMap ∅) (data !! k) in
          let sub := default {[alternativeKey := d]} (tryToMapStr d) in
          match fuel with
          | S fuel' => <[k := VMap (safemapstr_put fuel' sub rest v)]> data
          | O => <[k := VMap sub]> data
          end
      end
  end.

Definition safemapstr_Put (data : M) (key : string) (v : value) : M :=
  safemapstr_put (String.length key) data key v.

(** mapstr's read-only key walk: the value found, or why there is none. *)
Fixpoint mapFind (fuel : nat) (key : string) (data : M) : option value * option error :=
  match data !! key with
  | Some v => (Some v, None)
  | None =>
      match cut_dot key with
      | None => (None, None)
      | Some (subKey, rest) =>
          match data !! subKey with
          | None => (None, Some ErrKeyNotFound)
          | Some (VMap sub) =>
              match fuel with
              | S fuel' => mapFind fuel' rest sub
              | O => (None, None)
              end
          | Some (VStr _) => (None, Some (ErrMsg "expected map but type is string"))
          end
      end
  end.

Definition M_HasKey (m : M) (key : string) : bool * option error :=
  let '(found, err) := mapFind (String.length key) key m in
  (bool_decide (is_Some found), err).

Definition M_GetValue (m : M) (key : string) : value + error :=
  match mapFind (String.length key) key m with
  | (_, Some err) => inr err
  | (None, None) => inr ErrKeyNotFound
  | (Some v, None) => inl v
  end.

(** mapstr.M.Delete: removes the entry the key walk ends at, if any. *)
Fixpoint M_delete (fuel : nat) (data : M) (key : string) : M :=
  match data !! key with
  | Some _ => delete key data
  | None =>
      match cut_dot key, fuel with
      | Some (subKey, rest), S fuel' =>
          match data !! subKey with
          | Some (VMap sub) => <[subKey := VMap (M_delete fuel' sub rest)]> data
          | _ => data
          end
      | _, _ => data
      end
  end.

Definition M_Delete (m : M) (key : string) : M :=
  M_delete (String.length key) m key.

(** mapstr.M.Put: like the walk above but creating missing intermediate maps;
    a non-map in the way is an error and leaves the map as it was. *)
Fixpoint M_put (fuel : nat) (data : M) (key : string) (v : value) : M + error :=
  match data !! key with
  | Some _ => inl (<[key := v]> data)
  | None =>
      match cut_dot key, fuel with
      | Some (subKey, rest), S fuel' =>
          match default (VMap ∅) (data !! subKey) with
          | VMap sub =>
              match M_put fuel' sub rest v with
              | inl sub' => inl (<[subKey := VMap sub']> data)
              | inr err => inr err
              end
          | VStr _ => inr (ErrMsg "expected map but type is string")
          end
      | _, _ => inl (<[key := v]> data)
      end
  end.

(** The call sites drop Put's error: the map is what it is afterwards. *)
Definition M_Put (m : M) (key : string) (v : value) : M :=
  match M_put (String.length key) m key v with
  | inl m' => m'
  | inr _ => m
  end.

(** mapstr.M.Clone is a deep copy: the identity on values. *)
Definition M_Clone (m : M) : M := m.

(* ===================================================================== *)
(** ** Data of the two packages *)
(* ===================================================================== *)

Abbreviation bytes := string.

(** kubernetes.ContainerPort, Container, ContainerInPod and Pod: the fields
    the eventer reads.  [pod_Annotations] lists the annotation map in the
    order in which a [range] over it yields the entries. *)
Record ContainerPort : Type := {
  port_Name : string;
  port_ContainerPort : Z;      (* int32 *)
}.

Record Container : Type := {
  c_Name : string;
  c_Image : string;
  c_Ports : list ContainerPort;
}.

Record ContainerInPod : Type := {
  ID : string;
  Runtime : string;
  Spec : Container;
}.

Record Pod : Type := {
  pod_UID : string;
  pod_Name : string;
  pod_Annotations : list (string * string);
  pod_Containers : list Container;        (* Spec.Containers *)
  pod_InitContainers : list Container;    (* Spec.InitContainers *)
}.

(** fleetapi.HintsRequest and HintsResponse. *)
Record HintsContainer : Type := {
  hc_Id : string;
  hc_Image : string;
  hc_Name : string;
  hc_Port : string;
  hc_PortName : string;
  hc_Runtime : string;
}.

Record HintsPod : Type := {
  hp_Ip : string;
  hp_Name : string;
  hp_Uid : string;
}.

Record HintsKubernetes : Type := {
  hk_Container : HintsContainer;
  hk_Namespace : string;
  hk_Annotations : gmap string string;
  hk_Labels : gmap string string;
  hk_Pod : HintsPod;
}.

Record HintsRequest : Type := {
  AgentId : string;
  Type_ : string;
  Kubernetes : HintsKubernetes;
}.

Record HintsResponse : Type := {
  Action : string;
}.

Record Response : Type := {       (* *http.Response *)
  StatusCode : Z;
  Body : bytes;
}.

Record AgentInfo : Type := {
  AgentID : string;
}.

(** kubernetes.Watcher: its name and what its Start returns. *)
Record Watcher : Type := {
  w_name : string;
  w_Start : option error;
}.

(** metadata.FieldOptions and metadata.MetaGen. *)
Inductive FieldOption : Type :=
| WithFields (key value : string).

Abbreviation MetaGen := (Pod -> list FieldOption -> M).

(* ===================================================================== *)
(** ** Effects *)
(* ===================================================================== *)

Inductive printed : Type :=
| PStr (s : string)
| PBool (b : bool)
| PM (m : M)
| PErr (e : option error)
| PResp (r : option HintsResponse)
| PBody (b : bytes)
| PPod (p : Pod).

(** The calls that leave the two files. *)
Inductive event : Type :=
| EvAddOrUpdate (id : string) (priority : Z) (mapping : M) (processors : list M)
| EvRemove (id : string)                 (* comm.Remove *)
| EvAfterFunc (d : Z) (p : Pod)          (* time.AfterFunc(d, emitStopped p) *)
| EvStart (w : string)                   (* Watcher.Start *)
| EvStop (w : string)                    (* Watcher.Stop *)
| EvNewAgentInfo                         (* info.NewAgentInfo *)
| EvSend (method path : string) (body : bytes)
| EvBodyClose
| EvRLock
| EvRUnlock
| EvLog (level format : string) (arg : option printed)
| EvPrintln (a : printed)
| EvPrintf (format : string) (a : printed).

(** client.Sender: what Send answers may depend on all that happened before. *)
Abbreviation Sender := (list event -> string -> string -> bytes -> Response + error).

(** A Go function with effects: from the trace so far to its outcome and the
    extended trace. *)
Definition Go (A : Type) : Type := list event -> outcome A * list event.

#[export] Instance Go_ret : MRet Go := fun A a tr => (Done a, tr).

#[export] Instance Go_bind : MBind Go := fun A B f m tr =>
  match m tr with
  | (Done a, tr') => f a tr'
  | (Panicked msg, tr') => (Panicked msg, tr')
  end.

Definition emit (e : event) : Go unit := fun tr => (Done tt, tr ++ [e]).

Definition panic {A : Type} (msg : string) : Go A := fun tr => (Panicked msg, tr).

Definition history : Go (list event) := fun tr => (Done tr, tr).

Definition lift {A : Type} (o : outcome A) : Go A := fun tr => (o, tr).

(** [defer d] around a body: [d] runs when the body is left, also by a panic. *)
Definition defer {A : Type} (d : Go unit) (body : Go A) : Go A := fun tr =>
  match body tr with
  | (Done a, tr') =>
      match d tr' with
      | (Done _, tr'') => (Done a, tr'')
      | (Panicked msg, tr'') => (Panicked msg, tr'')
      end
  | (Panicked msg, tr') => (Panicked msg, snd (d tr'))
  end.

(** [for _, x := range xs { body x }]. *)
Fixpoint for_range {A : Type} (xs : list A) (body : A -> Go unit) : Go unit :=
  match xs with
  | [] => mret tt
  | x :: rest => body x;; for_range rest body
  end.

Definition continue : Go unit := mret tt.

Definition Println (a : printed) : Go unit := emit (EvPrintln a).
Definition Printf (format : string) (a : printed) : Go unit := emit (EvPrintf format a).
Definition Logf (level format : string) (arg : option printed) : Go unit :=
  emit (EvLog level format arg).

(** The collaborators whose code is in other packages. *)
Record Externals : Type := {
  PodPriority : Z;
  ContainerPriority : Z;
  GetContainersInPod : Pod -> list ContainerInPod;
  PodNamespaceAnnotations : Pod -> option Watcher -> M;
  NewAgentInfo : list event -> bool -> AgentInfo + error;
  json_Marshal_M : M -> bytes + error;
  json_Unmarshal_HintsRequest : bytes -> HintsRequest + error;
  json_Marshal_HintsRequest : HintsRequest -> bytes + error;
  json_Decode_HintsResponse : bytes -> HintsResponse + error;
  ExtractError : bytes -> option error;
  errors_As : error -> as_target -> outcome bool;
}.

(* ===================================================================== *)
(** ** fleetapi/hints_cmd.go *)
(* ===================================================================== *)

Definition HintsRequest_Validate (h : HintsRequest) : option error :=
  let err : option error := None in
  let err :=
    if (String.length (Type_ h) =? 0)%nat
    then multierror_Append err (ErrMsg "missing hints type")
    else err in
  err.

Definition HintsResponse_Validate (h : HintsResponse) : option error :=
  let err : option error := None in
  let err :=
    if negb (String.eqb (Action h) "created")
    then multierror_Append err (ErrMsg "hints not created")
    else err in
  err.

Record HintsCmd : Type := {
  client : Sender;
  info : AgentInfo;
}.

Definition NewHintsCmd (info : AgentInfo) (client : Sender) : HintsCmd :=
  {| client := client; info := info |}.

(** [fmt.Sprintf(hintsPath, agentID)] with hintsPath = "/api/fleet/agents/%s/hints". *)
Definition hintsPath (agentID : string) : string :=
  "/api/fleet/agents/" +:+ agentID +:+ "/hints".

Definition StatusTooManyRequests : Z := 429.
Definition StatusOK : Z := 200.

Section Fleetapi.
Context (ext : Externals).

Definition Send (s : Sender) (method path : string) (body : bytes) : Go (Response + error) :=
  tr ← history;
  emit (EvSend method path body);;
  mret (s tr method path body).

Definition Execute (e : HintsCmd) (r : HintsRequest) : Go (option HintsResponse * option error) :=
  match HintsRequest_Validate r with
  | Some err => mret (None, Some err)
  | None =>
  match json_Marshal_HintsRequest ext r with
  | inr err => mret (None, Some (ErrWrap err "fail to encode the hints request"))
  | inl b =>
  let p := hintsPath (AgentID (info e)) in
  Printf "path is %s" (PStr p);;
  sent ← Send (client e) "POST" p b;
  match sent with
  | inr err =>
      let et : option url_Error := None in
      isURL ← lift (errors_As ext err (AsURLError et));
      if isURL : bool then
        match et with
        | Some u => mret (None, Some (url_Err_of u))
        | None => panic nil_dereference
        end
      else
      let netOp : option net_OpError := None in
      isNetOp ← lift (errors_As ext err (AsNetOpError netOp));
      if isNetOp : bool then mret (None, Some ErrConnRefused)
      else mret (None, Some err)
  | inl resp =>
      defer (emit EvBodyClose) (
        if StatusCode resp =? StatusTooManyRequests then
          mret (None, Some ErrTooManyRequests)
        else if negb (StatusCode resp =? StatusOK) then
          mret (None, ExtractError ext (Body resp))
        else
          Printf "body is %+v" (PBody (Body resp));;
          match json_Decode_HintsResponse ext (Body resp) with
          | inr err => mret (None, Some (ErrWrap err "fail to decode hints response"))
          | inl hintsResponse =>
              match HintsResponse_Validate hintsResponse with
              | Some err => mret (None, Some err)
              | None => mret (Some hintsResponse, None)
              end
          end)
  end
  end
  end.

End Fleetapi.

(* ===================================================================== *)
(** ** composable/providers/kubernetes/pod.go *)
(* ===================================================================== *)

Record pod : Type := {
  cleanupTimeout : Z;
  scope : string;
  metagen : MetaGen;
  watcher : Watcher;
  nodeWatcher : option Watcher;         (* nil when it could not be created *)
  namespaceWatcher : option Watcher;    (* nil when it could not be created *)
  fclient : Sender;
}.

(** [mapping] is [None] for the nil map of the zero value. *)
Record providerData : Type := {
  uid : string;
  mapping : option M;
  processors : list M;
}.

(** The registry [comm] is reached through its two calls only. *)
Definition comm_AddOrUpdate (id : string) (priority : Z) (mapping : M) (processors : list M)
  : Go unit :=
  emit (EvAddOrUpdate id priority mapping processors).

Definition comm_Remove (id : string) : Go unit := emit (EvRemove id).

Definition Watcher_Start (w : Watcher) : Go (option error) :=
  emit (EvStart (w_name w));; mret (w_Start w).

Definition Watcher_Stop (w : Watcher) : Go unit := emit (EvStop (w_name w)).

(** [fmt.Sprintf("%v", n)] for an integer. *)
Definition Sprintf_v (n : Z) : string := NilZero.string_of_int (Z.to_int n).

Definition add_fields (fields : value) (target : string) : M :=
  {[ "add_fields" := VMap (<["fields" := fields]> {[ "target" := VStr target ]}) ]}.

Definition hintsKey : string := "elastic-co-hints/package".

Definition checkForHints (annotations : M) : bool :=
  let '(exists_, _) := M_HasKey annotations hintsKey in
  exists_.

Definition generatePodData (pod : Pod) (kubeMetaGen : MetaGen) (namespaceAnnotations : M)
  : outcome providerData :=
  let meta := kubeMetaGen pod [] in
  match M_GetValue meta "kubernetes" with
  | inr err => Done {| uid := ""; mapping := None; processors := [] |}
  | inl kubemetaMap =>
  match kubemetaMap with
  | VStr _ => Panicked bad_type_assertion
  | VMap kubemetaMap =>
      let k8sMapping := M_Clone kubemetaMap in
      let k8sMapping :=
        if negb (size namespaceAnnotations =? 0)%nat
        then <["namespace_annotations" := VMap namespaceAnnotations]> k8sMapping
        else k8sMapping in
      let annotations : M :=
        fold_left (fun annotations '(k, v) => safemapstr_Put annotations k (VStr v))
                  (pod_Annotations pod) ∅ in
      let k8sMapping := <["annotations" := VMap annotations]> k8sMapping in
      let processors :=
        fold_left (fun processors '(field, metaMap) => processors ++ [add_fields metaMap field])
                  (map_to_list meta) [] in
      Done {| uid := pod_UID pod; mapping := Some k8sMapping; processors := processors |}
  end
  end.

Section Kubernetes.
Context (ext : Externals).

Definition Start (p : pod) : Go (option error) :=
  err ← (if nodeWatcher p is Some w then Watcher_Start w else mret None);
  if err is Some _ then mret err else
  err ← (if namespaceWatcher p is Some w then Watcher_Start w else mret None);
  if err is Some _ then mret err else
  Watcher_Start (watcher p).

Definition Stop (p : pod) : Go unit :=
  Watcher_Stop (watcher p);;
  (if namespaceWatcher p is Some w then Watcher_Stop w else mret tt);;
  (if nodeWatcher p is Some w then Watcher_Stop w else mret tt).

Definition postMappingstoFleet (k8sMapping : M) (client : Sender) (t : string)
  : Go (option HintsResponse * option error) :=
  Println (PStr "inside post to fleet");;
  Printf "mapping is %+v\n" (PM k8sMapping);;
  tr ← history;
  emit EvNewAgentInfo;;
  match NewAgentInfo ext tr false with
  | inr err => mret (None, Some err)
  | inl agentInfo =>
  let kubMap : M := ∅ in
  let kubMap := M_Put kubMap "kubernetes" (VMap k8sMapping) in
  Printf "new map is %+v" (PM kubMap);;
  let cmd := NewHintsCmd agentInfo client in
  match json_Marshal_M ext kubMap with
  | inr err => mret (None, Some err)
  | inl jsonbody =>
  match json_Unmarshal_HintsRequest ext jsonbody with
  | inr err => mret (None, Some err)
  | inl hintsRequest =>
  let hintsRequest :=
    {| AgentId := AgentId hintsRequest; Type_ := t; Kubernetes := Kubernetes hintsRequest |} in
  '(resp, err) ← Execute ext cmd hintsRequest;
  Printf "response is %+v" (PResp resp);;
  mret (resp, None)
  end
  end
  end.

Definition generateContainerData (pod : Pod) (kubeMetaGen : MetaGen)
    (namespaceAnnotations : M) (client : Sender) : Go unit :=
  let containers := GetContainersInPod ext pod in
  let annotations : M :=
    fold_left (fun annotations '(k, v) => safemapstr_Put annotations k (VStr v))
              (pod_Annotations pod) ∅ in
  Println (PM annotations);;
  let annotations := M_Delete annotations "kubectl" in
  Println (PStr (pod_Name pod));;
  for_range containers (fun c =>
    if String.eqb (ID c) "" then continue else
    let eventID := pod_UID pod +:+ "." +:+ c_Name (Spec c) in
    let meta := kubeMetaGen pod [WithFields "container.name" (c_Name (Spec c))] in
    match M_GetValue meta "kubernetes" with
    | inr err => continue
    | inl kubemetaMap =>
    match kubemetaMap with
    | VStr _ => panic bad_type_assertion
    | VMap kubemetaMap =>
    let k8sMapping := M_Clone kubemetaMap in
    let k8sMapping :=
      if negb (size namespaceAnnotations =? 0)%nat
      then <["namespace_annotations" := VMap namespaceAnnotations]> k8sMapping
      else k8sMapping in
    let k8sMapping := <["annotations" := VMap annotations]> k8sMapping in
    let emitHints := checkForHints annotations in
    Println (PBool emitHints);;
    Println (PStr (c_Name (Spec c)));;
    let cmeta : M :=
      {[ "id" := VStr (ID c); "runtime" := VStr (Runtime c);
         "image" := VMap {[ "name" := VStr (c_Image (Spec c)) ]} ]} in
    let processors := [add_fields (VMap cmeta) "container"] in
    let processors :=
      fold_left (fun processors '(field, metaMap) => processors ++ [add_fields metaMap field])
                (map_to_list meta) processors in
    let containerMeta : M :=
      {[ "id" := VStr (ID c); "name" := VStr (c_Name (Spec c));
         "image" := VStr (c_Image (Spec c)); "runtime" := VStr (Runtime c) ]} in
    let '(containerMeta, k8sMapping) :=
      if (0 <? length (c_Ports (Spec c)))%nat then
        fold_left (fun '(containerMeta, k8sMapping) port =>
                     let containerMeta :=
                       M_Put containerMeta "port" (VStr (Sprintf_v (port_ContainerPort port))) in
                     let containerMeta :=
                       M_Put containerMeta "port_name" (VStr (port_Name port)) in
                     (containerMeta, <["container" := VMap containerMeta]> k8sMapping))
                  (c_Ports (Spec c)) (containerMeta, k8sMapping)
      else (containerMeta, <["container" := VMap containerMeta]> k8sMapping) in
    if emitHints then
      '(_, err) ← postMappingstoFleet k8sMapping client "Start";
      Printf "error is %+v" (PErr err)
    else
      comm_AddOrUpdate eventID (ContainerPriority ext) k8sMapping processors
    end
    end).

Definition emitContainers (p : pod) (pod : Pod) (namespaceAnnotations : M) : Go unit :=
  generateContainerData pod (metagen p) namespaceAnnotations (fclient p).

Definition emitRunning (p : pod) (pod : Pod) : Go unit :=
  let namespaceAnnotations := PodNamespaceAnnotations ext pod (namespaceWatcher p) in
  data ← lift (generatePodData pod (metagen p) namespaceAnnotations);
  data_mapping ← (if mapping data is Some m
                  then mret (<["scope" := VStr (scope p)]> m)
                  else panic nil_map_write);
  comm_AddOrUpdate (uid data) (PodPriority ext) data_mapping (processors data);;
  Logf "info" "pod emmit" None;;
  emitContainers p pod namespaceAnnotations.

Definition emitStopped (p : pod) (pod : Pod) : Go unit :=
  comm_Remove (pod_UID pod);;
  for_range (pod_Containers pod) (fun c =>
    let eventID := pod_UID pod +:+ "." +:+ c_Name c in
    comm_Remove eventID);;
  for_range (pod_InitContainers pod) (fun c =>
    let eventID := pod_UID pod +:+ "." +:+ c_Name c in
    comm_Remove eventID).

(** The handlers of the pod watcher; [obj] is the pod the watcher delivers. *)
Definition OnAdd (p : pod) (obj : Pod) : Go unit :=
  emit EvRLock;;
  defer (emit EvRUnlock) (
    Logf "debug" "pod add: %+v" (Some (PPod obj));;
    emitRunning p obj).

Definition unlockedUpdate (p : pod) (obj : Pod) : Go unit :=
  Logf "debug" "Watcher Pod update: %+v" (Some (PPod obj));;
  emitRunning p obj.

Definition OnUpdate (p : pod) (obj : Pod) : Go unit :=
  emit EvRLock;;
  defer (emit EvRUnlock) (unlockedUpdate p obj).

(** The function OnDelete hands to time.AfterFunc. *)
Definition OnDelete_func1 (p : pod) (pod : Pod) : Go unit := emitStopped p pod.

Definition OnDelete (p : pod) (obj : Pod) : Go unit :=
  emit EvRLock;;
  defer (emit EvRUnlock) (
    Logf "debug" "pod delete: %+v" (Some (PPod obj));;
    emit (EvAfterFunc (cleanupTimeout p) obj)).

End Kubernetes.

(** *** Construction of the eventer *)

(** The fields of Config that NewPodEventer reads; the two booleans of
    AddResourceMetadata are [Node.Enabled()] and [Namespace.Enabled()]. *)
Record AddResourceMetadataConfig : Type := {
  meta_Node_Enabled : bool;
  meta_Namespace_Enabled : bool;
}.

Record Config : Type := {
  cfg_SyncPeriod : Z;
  cfg_Node : string;
  cfg_Namespace : string;
  cfg_CleanupTimeout : Z;
  cfg_AddResourceMetadata : AddResourceMetadataConfig;
}.

Record WatchOptions : Type := {
  wo_SyncTimeout : Z;
  wo_Node : string;
  wo_Namespace : string;
  wo_HonorReSyncs : bool;
}.

(** The resource a watcher is created for. *)
Inductive Resource : Type := ResPod | ResNode | ResNamespace.

(** What is registered with AddEventHandler: the eventer itself, or an
    updater made from its unlockedUpdate, the pod store and the cross-update
    lock. *)
Inductive Handler : Type := PodHandler | NodePodUpdater | NamespacePodUpdater.

(** The constructors of other packages.  NewNamedWatcher gives a watcher or
    an error, never both; the raw configuration is kept as a Config. *)
Record Constructors : Type := {
  NewNamedWatcher : string -> Resource -> WatchOptions -> Watcher + error;
  NewConfigFrom : Config -> Config + error;
  GetPodMetaGen :
    Config -> Watcher -> option Watcher -> option Watcher -> AddResourceMetadataConfig -> MetaGen;
}.

(** NewPodEventer.  The handlers it registers are returned with the eventer,
    as pairs of watcher name and handler, in the order of the
    AddEventHandler calls; of the two arguments of each error log, the
    constant resource type is not recorded. *)
Definition NewPodEventer (cons : Constructors) (cfg : Config) (scope : string)
    (fclient : Sender) : Go (pod * list (string * Handler) + error) :=
  match NewNamedWatcher cons "agent-pod" ResPod
          {| wo_SyncTimeout := cfg_SyncPeriod cfg; wo_Node := cfg_Node cfg;
             wo_Namespace := cfg_Namespace cfg; wo_HonorReSyncs := true |} with
  | inr err => mret (inr (ErrWrap err "couldn't create kubernetes watcher"))
  | inl watcher =>
  let options := {| wo_SyncTimeout := cfg_SyncPeriod cfg; wo_Node := cfg_Node cfg;
                    wo_Namespace := ""; wo_HonorReSyncs := false |} in
  let metaConf := cfg_AddResourceMetadata cfg in
  nodeWatcher ← match NewNamedWatcher cons "agent-node" ResNode options with
                | inl w => mret (Some w)
                | inr err =>
                    Logf "error" "couldn't create watcher for %T due to error %+v"
                         (Some (PErr (Some err)));;
                    mret None
                end;
  namespaceWatcher ← match NewNamedWatcher cons "agent-namespace" ResNamespace
                             {| wo_SyncTimeout := cfg_SyncPeriod cfg; wo_Node := "";
                                wo_Namespace := ""; wo_HonorReSyncs := false |} with
                     | inl w => mret (Some w)
                     | inr err =>
                         Logf "error" "couldn't create watcher for %T due to error %+v"
                              (Some (PErr (Some err)));;
                         mret None
                     end;
  match NewConfigFrom cons cfg with
  | inr err => mret (inr (ErrWrap err "failed to unpack configuration"))
  | inl rawConfig =>
  let metaGen := GetPodMetaGen cons rawConfig watcher nodeWatcher namespaceWatcher metaConf in
  let p := {| cleanupTimeout := cfg_CleanupTimeout cfg; scope := scope; metagen := metaGen;
              watcher := watcher; nodeWatcher := nodeWatcher;
              namespaceWatcher := namespaceWatcher; fclient := fclient |} in
  let handlers := [(w_name watcher, PodHandler)] in
  let handlers :=
    match nodeWatcher with
    | Some w => if meta_Node_Enabled metaConf
                then handlers ++ [(w_name w, NodePodUpdater)] else handlers
    | None => handlers
    end in
  let handlers :=
    match namespaceWatcher with
    | Some w => if meta_Namespace_Enabled metaConf
                then handlers ++ [(w_name w, NamespacePodUpdater)] else handlers
    | None => handlers
    end in
  mret (inl (p, handlers))
  end
  end.

(* ===================================================================== *)
(** ** Reading traces *)
(* ===================================================================== *)

(** Identity and priority of the AddOrUpdate calls, in order. *)
Definition published (evs : list event) : list (string * Z) :=
  omap (fun ev => if ev is EvAddOrUpdate id priority _ _ then Some (id, priority) else None) evs.

(** Identities of the Remove calls, in order. *)
Definition removed (evs : list event) : list string :=
  omap (fun ev => if ev is EvRemove id then Some id else None) evs.


(** One [EvNewAgentInfo] per call of postMappingstoFleet: it is the first
    thing the dispatch helper asks of the outside. *)
Definition dispatches (evs : list event) : nat :=
  length (omap (fun ev => if ev is EvNewAgentInfo then Some tt else None) evs).

(** The errors the container loop prints after its dispatches. *)
Definition printed_errors (evs : list event) : list (option error) :=
  omap (fun ev => if ev is EvPrintf _ (PErr err) then Some err else None) evs.

(** Whether the generated tree of a container has the kubernetes entry. *)
Definition has_metadata (kubeMetaGen : MetaGen) (pod : Pod) (c : ContainerInPod) : bool :=
  if M_GetValue (kubeMetaGen pod [WithFields "container.name" (c_Name (Spec c))]) "kubernetes"
  is inr _ then false else true.

(** The kubernetes mapping that leaves generateContainerData with an event:
    the one given to AddOrUpdate, or the one handed to postMappingstoFleet,
    which prints its argument first. *)
Definition mapping_of (ev : event) : option M :=
  match ev with
  | EvAddOrUpdate _ _ m _ => Some m
  | EvPrintf format (PM m) =>
      if String.eqb format "mapping is %+v\n" then Some m else None
  | _ => None
  end.

Definition emitted_mappings (evs : list event) : list M := omap mapping_of evs.

(** Events that neither reach the registry, nor start a dispatch, nor carry
    an emitted mapping. *)
Definition quiet (ev : event) : Prop :=
  match ev with
  | EvSend _ _ _ | EvBodyClose | EvPrintln _ | EvLog _ _ _ => True
  | EvPrintf format _ => format <> "mapping is %+v\n"
  | _ => False
  end.

(** [m] only ever appends events, and those satisfy [Q]. *)
Definition emits {A : Type} (Q : event -> Prop) (m : Go A) : Prop :=
  forall tr, exists evs, snd (m tr) = tr ++ evs /\ Forall Q evs.

(* ===================================================================== *)
(** ** Vocabulary of the properties *)
(* ===================================================================== *)

(** The part of a dotted key before its first dot. *)
Definition head_key (key : string) : string :=
  match cut_dot key with Some (k, _) => k | None => key end.

Definition dotfree_keys (m : M) : Prop := forall k, k ∈ dom m -> cut_dot k = None.

(** An annotation key that opts the pod into hints: the sentinel itself, or
    the sentinel followed by a dot and more. *)
Definition hint_annotation (key : string) : bool :=
  String.eqb key hintsKey || String.prefix (hintsKey +:+ ".") key.

Definition hinted (pod : Pod) : bool :=
  existsb (fun kv => hint_annotation (fst kv)) (pod_Annotations pod).



Definition running (c : ContainerInPod) : bool := negb (String.eqb (ID c) "").

(** Pod UID, a dot, the container spec name. *)
Definition eventID_of (pod : Pod) (c : ContainerInPod) : string :=
  pod_UID pod +:+ "." +:+ c_Name (Spec c).

(** The identities emitStopped computes for a pod. *)
Definition stop_ids (pod : Pod) : list string :=
  pod_UID pod
  :: map (fun c => pod_UID pod +:+ "." +:+ c_Name c) (pod_Containers pod ++ pod_InitContainers pod).

Definition started (w : option Watcher) : list event :=
  if w is Some w then [EvStart (w_name w)] else [].



(** A field of kubernetes.container in a mapping. *)
Definition container_field (m : M) (key : string) : option value :=
  match m !! "container" with
  | Some (VMap containerMeta) => containerMeta !! key
  | _ => None
  end.

(** Every mapping an event carries satisfies [P]. *)
Definition carries (P : M -> Prop) (ev : event) : Prop :=
  forall m, mapping_of ev = Some m -> P m.

(** The same collaborators with another view of the containers of a pod. *)
Definition with_containers (ext : Externals) (f : Pod -> list ContainerInPod) : Externals :=
  {| PodPriority := PodPriority ext;
     ContainerPriority := ContainerPriority ext;
     GetContainersInPod := f;
     PodNamespaceAnnotations := PodNamespaceAnnotations ext;
     NewAgentInfo := NewAgentInfo ext;
     json_Marshal_M := json_Marshal_M ext;
     json_Unmarshal_HintsRequest := json_Unmarshal_HintsRequest ext;
     json_Marshal_HintsRequest := json_Marshal_HintsRequest ext;
     json_Decode_HintsResponse := json_Decode_HintsResponse ext;
     ExtractError := ExtractError ext;
     errors_As := errors_As ext |}.

(** *** Three statements of the specification, as they are written *)


(** Pod deletion, as written: the handler itself removes the identities, and
    the timer it arms does so once more. *)
Definition OnDelete_as_stated (p : pod) (pod : Pod) : Prop :=
  removed (snd (OnDelete p pod [])) = stop_ids pod /\
  removed (snd (OnDelete_func1 p pod [])) = stop_ids pod.

(** Start, as written: whatever the optional watchers do, Start returns what
    starting the pod watcher returns. *)
Definition Start_as_stated (p : pod) : Prop :=
  fst (Start p []) = Done (w_Start (watcher p)).

(* ===================================================================== *)
(** ** Sample collaborators, pods and eventers *)
(* ===================================================================== *)

(** Go's errors.As on the targets the command passes: it panics unless the
    target is a non-nil pointer to an interface or to a type that implements
    error. *)
Definition goerrors_As (err : error) (target : as_target) : outcome bool :=
  match target with
  | AsURLError None | AsNetOpError None => Panicked "errors: target must be a non-nil pointer"
  | _ => Panicked "errors: *target must be interface or implement error"
  end.

(** A forgiving errors.As: it reports whether [err] itself is of the kind the
    target points to, whatever the pointer. *)
Definition As_by_kind (err : error) (target : as_target) : outcome bool :=
  match err, target with
  | ErrURL _, AsURLError _ | ErrNetOp _, AsNetOpError _ => Done true
  | _, _ => Done false
  end.

Definition zero_request : HintsRequest :=
  {| AgentId := ""; Type_ := "";
     Kubernetes :=
       {| hk_Container := {| hc_Id := ""; hc_Image := ""; hc_Name := ""; hc_Port := "";
                             hc_PortName := ""; hc_Runtime := "" |};
          hk_Namespace := ""; hk_Annotations := ∅; hk_Labels := ∅;
          hk_Pod := {| hp_Ip := ""; hp_Name := ""; hp_Uid := "" |} |} |}.

Definition start_request : HintsRequest :=
  {| AgentId := "agent-1"; Type_ := "Start"; Kubernetes := Kubernetes zero_request |}.

(** Every spec and init container of the pod, running under containerd. *)
Definition all_running (pod : Pod) : list ContainerInPod :=
  map (fun c => {| ID := "containerd://" +:+ c_Name c; Runtime := "containerd"; Spec := c |})
      (pod_Containers pod ++ pod_InitContainers pod).

(** JSON is kept trivial: a response body is its action. *)
Definition sample_ext (As : error -> as_target -> outcome bool) : Externals :=
  {| PodPriority := 1;
     ContainerPriority := 2;
     GetContainersInPod := all_running;
     PodNamespaceAnnotations := fun _ _ => ∅;
     NewAgentInfo := fun _ _ => inl {| AgentID := "agent-1" |};
     json_Marshal_M := fun _ => inl "{}";
     json_Unmarshal_HintsRequest := fun _ => inl zero_request;
     json_Marshal_HintsRequest := fun _ => inl "{}";
     json_Decode_HintsResponse := fun b => inl {| Action := b |};
     ExtractError := fun b => Some (ErrMsg b);
     errors_As := As |}.

Definition sender_answers (status : Z) (body : bytes) : Sender :=
  fun _ _ _ _ => inl {| StatusCode := status; Body := body |}.

Definition sender_fails (err : error) : Sender := fun _ _ _ _ => inr err.

Definition url_failure : error :=
  ErrURL (Build_url_Error "Post" "http://fleet:8220/api/fleet/agents/agent-1/hints"
                          (ErrMsg "unsupported protocol scheme")).

Definition app : Container :=
  {| c_Name := "app"; c_Image := "nginx";
     c_Ports := [ {| port_Name := "http"; port_ContainerPort := 80 |};
                  {| port_Name := "https"; port_ContainerPort := 443 |} ] |}.

Definition init1 : Container := {| c_Name := "init1"; c_Image := "busybox"; c_Ports := [] |}.

Definition sample_pod (annotations : list (string * string)) : Pod :=
  {| pod_UID := "abc"; pod_Name := "web"; pod_Annotations := annotations;
     pod_Containers := [app]; pod_InitContainers := [init1] |}.

(** A pod annotated with a dotted variant of the sentinel, not the sentinel. *)
Definition dotted_pod : Pod := sample_pod [("elastic-co-hints/package.version", "1.0")].

Definition sample_metagen : MetaGen :=
  fun pod _ => {[ "kubernetes" := VMap {[ "pod" := VMap {[ "name" := VStr (pod_Name pod) ]} ]} ]}.

(** A generator whose tree has no kubernetes entry. *)
Definition empty_metagen : MetaGen := fun _ _ => ∅.

Definition sample_eventer (kubeMetaGen : MetaGen) (node : option Watcher) (s : Sender) : pod :=
  {| cleanupTimeout := 60; scope := "node"; metagen := kubeMetaGen;
     watcher := {| w_name := "agent-pod"; w_Start := None |};
     nodeWatcher := node; namespaceWatcher := None; fclient := s |}.

Definition failing_node_watcher : Watcher :=
  {| w_name := "agent-node"; w_Start := Some (ErrMsg "node watcher failed") |}.

(* ===================================================================== *)
(** ** Vocabulary of the further properties *)
(* ===================================================================== *)

(** The events a call adds to the trace it starts from. *)
Definition since {A : Type} (tr : list event) (m : Go A) : list event :=
  drop (length tr) (snd (m tr)).

(** Requests handed to the transport. *)
Definition sent (evs : list event) : list (string * string * bytes) :=
  omap (fun ev => if ev is EvSend method path body then Some (method, path, body) else None) evs.

Definition body_closes (evs : list event) : nat :=
  length (omap (fun ev => if ev is EvBodyClose then Some tt else None) evs).

(** The events of one Execute call. *)
Definition Execute_events (ext : Externals) (e : HintsCmd) (r : HintsRequest)
    (tr : list event) : list event :=
  let p := hintsPath (AgentID (info e)) in
  match HintsRequest_Validate r, json_Marshal_HintsRequest ext r with
  | None, inl b =>
      [EvPrintf "path is %s" (PStr p); EvSend "POST" p b]
      ++ match client e (tr ++ [EvPrintf "path is %s" (PStr p)]) "POST" p b with
         | inr _ => []
         | inl resp =>
             (if (StatusCode resp =? 200) then [EvPrintf "body is %+v" (PBody (Body resp))]
              else [])
             ++ [EvBodyClose]
         end
  | _, _ => []
  end.

(** The watchers an eventer holds, in the order Start goes through them. *)
Definition watchers_of (p : pod) : list Watcher :=
  option_list (nodeWatcher p) ++ option_list (namespaceWatcher p) ++ [watcher p].

Definition lock_free (ev : event) : Prop :=
  match ev with EvRLock | EvRUnlock => False | _ => True end.

(** Nothing that leaves the process: no agent info lookup, no request. *)
Definition offline (ev : event) : Prop :=
  match ev with EvNewAgentInfo | EvSend _ _ _ | EvBodyClose => False | _ => True end.

(** What generateContainerData may do for a pod: print, dispatch, send, and
    publish a running container of the pod at container priority. *)
Definition container_traffic (ext : Externals) (pod : Pod) (ev : event) : Prop :=
  match ev with
  | EvAddOrUpdate id priority _ _ =>
      priority = ContainerPriority ext
      /\ exists c, c ∈ GetContainersInPod ext pod /\ ID c <> "" /\ id = eventID_of pod c
  | EvRemove _ | EvAfterFunc _ _ | EvStart _ | EvStop _ | EvRLock | EvRUnlock => False
  | _ => True
  end.

(** The registry hears of the pod only, at pod priority. *)
Definition pod_scope_only (ext : Externals) (pod : Pod) (ev : event) : Prop :=
  match ev with
  | EvAddOrUpdate id priority _ _ => id = pod_UID pod /\ priority = PodPriority ext
  | EvRemove _ => False
  | _ => True
  end.

(** An AddOrUpdate under an identity that emitStopped removes. *)
Definition removable (pod : Pod) (ev : event) : Prop :=
  match ev with
  | EvAddOrUpdate id _ _ _ => id ∈ stop_ids pod
  | _ => True
  end.

(** kubernetes.container as generateContainerData builds it. *)
Definition containerMeta_of (c : ContainerInPod) : M :=
  fold_left (fun (containerMeta : M) port =>
               <["port_name" := VStr (port_Name port)]>
                 (<["port" := VStr (Sprintf_v (port_ContainerPort port))]> containerMeta))
            (c_Ports (Spec c))
            {[ "id" := VStr (ID c); "name" := VStr (c_Name (Spec c));
               "image" := VStr (c_Image (Spec c)); "runtime" := VStr (Runtime c) ]}.

(** The annotation tree generatePodData attaches to the pod mapping. *)
Definition annotation_tree (pod : Pod) : M :=
  fold_left (fun annotations '(k, v) => safemapstr_Put annotations k (VStr v))
            (pod_Annotations pod) ∅.

(** The annotation tree generateContainerData attaches to its mappings. *)
Definition container_annotations (pod : Pod) : M :=
  M_Delete (fold_left (fun annotations '(k, v) => safemapstr_Put annotations k (VStr v))
                      (pod_Annotations pod) ∅) "kubectl".

(** The segments of a dotted key, as strings.Split(key, ".") gives them. *)
Fixpoint segments (key : string) : list string :=
  match key with
  | EmptyString => [EmptyString]
  | String c rest =>
      if Ascii.eqb c "."%char then EmptyString :: segments rest
      else match segments rest with
           | s :: ss => String c s :: ss
           | [] => [String c EmptyString]
           end
  end.

(** Two keys neither of which leads through the other: "a.b" and "a.c" are,
    "a" and "a.b" are not, and no key is independent of itself. *)
Definition independent (k k' : string) : Prop :=
  ~ segments k `prefix_of` segments k' /\ ~ segments k' `prefix_of` segments k.

(** The mapping generateContainerData emits for container [c] whose generated
    kubernetes tree is [kubemetaMap]. *)
Definition container_mapping (pod : Pod) (namespaceAnnotations kubemetaMap : M)
    (c : ContainerInPod) : M :=
  <["container" := VMap (containerMeta_of c)]>
    (<["annotations" := VMap (container_annotations pod)]>
       (if negb (size namespaceAnnotations =? 0)%nat
        then <["namespace_annotations" := VMap namespaceAnnotations]> kubemetaMap
        else kubemetaMap)).

Definition emitted_for (ext : Externals) (pod : Pod) (kubeMetaGen : MetaGen)
    (namespaceAnnotations : M) (m : M) : Prop :=
  exists c kubemetaMap,
    c ∈ GetContainersInPod ext pod /\ ID c <> ""
    /\ M_GetValue (kubeMetaGen pod [WithFields "container.name" (c_Name (Spec c))]) "kubernetes"
       = inl (VMap kubemetaMap)
    /\ m = container_mapping pod namespaceAnnotations kubemetaMap c.

(** The options NewPodEventer creates its three watchers with. *)
Definition pod_options (cfg : Config) : WatchOptions :=
  {| wo_SyncTimeout := cfg_SyncPeriod cfg; wo_Node := cfg_Node cfg;
     wo_Namespace := cfg_Namespace cfg; wo_HonorReSyncs := true |}.

Definition node_options (cfg : Config) : WatchOptions :=
  {| wo_SyncTimeout := cfg_SyncPeriod cfg; wo_Node := cfg_Node cfg;
     wo_Namespace := ""; wo_HonorReSyncs := false |}.

Definition namespace_options (cfg : Config) : WatchOptions :=
  {| wo_SyncTimeout := cfg_SyncPeriod cfg; wo_Node := ""; wo_Namespace := "";
     wo_HonorReSyncs := false |}.

Definition created (r : Watcher + error) : option Watcher :=
  match r with inl w => Some w | inr _ => None end.

Definition create_errors (r : Watcher + error) : list event :=
  match r with
  | inl _ => []
  | inr err => [EvLog "error" "couldn't create watcher for %T due to error %+v"
                      (Some (PErr (Some err)))]
  end.

(** *** Further samples *)

(** Collaborators with a chosen agent info, request encoding and response
    decoding. *)
Definition custom_ext (agent : AgentInfo + error) (encoded : bytes + error)
    (decode : bytes -> HintsResponse + error) : Externals :=
  {| PodPriority := 1;
     ContainerPriority := 2;
     GetContainersInPod := all_running;
     PodNamespaceAnnotations := fun _ _ => ∅;
     NewAgentInfo := fun _ _ => agent;
     json_Marshal_M := fun _ => inl "{}";
     json_Unmarshal_HintsRequest := fun _ => inl zero_request;
     json_Marshal_HintsRequest := fun _ => encoded;
     json_Decode_HintsResponse := decode;
     ExtractError := fun b => Some (ErrMsg b);
     errors_As := goerrors_As |}.

Definition sample_cmd (s : Sender) : HintsCmd := NewHintsCmd {| AgentID := "agent-1" |} s.

Definition sample_config : Config :=
  {| cfg_SyncPeriod := 600; cfg_Node := "node-1"; cfg_Namespace := "";
     cfg_CleanupTimeout := 60;
     cfg_AddResourceMetadata :=
       {| meta_Node_Enabled := true; meta_Namespace_Enabled := true |} |}.

(** Constructors that give the pod watcher and, as chosen, the other two. *)
Definition sample_cons (optional_ok : bool) : Constructors :=
  {| NewNamedWatcher := fun name resource _ =>
       match resource with
       | ResPod => inl {| w_name := name; w_Start := None |}
       | _ => if optional_ok then inl {| w_name := name; w_Start := None |}
              else inr (ErrMsg "no API server")
       end;
     NewConfigFrom := fun cfg => inl cfg;
     GetPodMetaGen := fun _ _ _ _ _ => sample_metagen |}.

(* ===================================================================== *)
(** ** Effects: basic facts *)
(* ===================================================================== *)

Ltac go_step :=
  unfold mbind, Go_bind, mret, Go_ret, Printf, Println, Logf, emit, history, lift, panic, Send;
  simpl.

Lemma bind_emit {A : Type} (e : event) (k : unit -> Go A) (tr : list event) :
  (emit e ≫= k) tr = k tt (tr ++ [e]).
Proof. reflexivity. Qed.

Lemma bind_history {A : Type} (k : list event -> Go A) (tr : list event) :
  (history ≫= k) tr = k tr tr.
Proof. reflexivity. Qed.

Section Emits.
Context {A B : Type} (Q : event -> Prop).

Lemma emits_ret (a : A) : emits Q (mret a).
Proof. intros tr. exists []. split; [symmetry; apply app_nil_r | constructor]. Qed.

Lemma emits_panic (msg : string) : emits Q (@panic A msg).
Proof. intros tr. exists []. split; [symmetry; apply app_nil_r | constructor]. Qed.

Lemma emits_lift (o : outcome A) : emits Q (lift o).
Proof. intros tr. exists []. split; [symmetry; apply app_nil_r | constructor]. Qed.

Lemma emits_history : emits Q history.
Proof. intros tr. exists []. split; [symmetry; apply app_nil_r | constructor]. Qed.

Lemma emits_emit (e : event) : Q e -> emits Q (emit e).
Proof. intros He tr. exists [e]. split; [reflexivity | repeat constructor; exact He]. Qed.

Lemma emits_bind (m : Go A) (f : A -> Go B) :
  emits Q m -> (forall a, emits Q (f a)) -> emits Q (m ≫= f).
Proof.
  intros Hm Hf tr. destruct (Hm tr) as (evs & Heq & Hall).
  unfold mbind, Go_bind. destruct (m tr) as [[a | msg] tr'] eqn:Hrun; simpl in Heq; subst tr'.
  - destruct (Hf a (tr ++ evs)) as (evs' & Heq' & Hall').
    exists (evs ++ evs'). rewrite Heq', app_assoc. split; [reflexivity | apply Forall_app; auto].
  - exists evs. auto.
Qed.

Lemma emits_defer (d : Go unit) (body : Go A) :
  emits Q d -> emits Q body -> emits Q (defer d body).
Proof.
  intros Hd Hb tr. destruct (Hb tr) as (evs & Heq & Hall).
  unfold defer. destruct (body tr) as [[a | msg] tr'] eqn:Hrun; simpl in Heq; subst tr';
    destruct (Hd (tr ++ evs)) as (evs' & Heq' & Hall');
    exists (evs ++ evs'); rewrite app_assoc, <- Heq';
    (split; [ | apply Forall_app; auto]).
  - destruct (d (tr ++ evs)) as [[? | ?] ?]; reflexivity.
  - reflexivity.
Qed.

End Emits.

Lemma emits_for_range {A : Type} (Q : event -> Prop) (xs : list A) (body : A -> Go unit) :
  (forall x, x ∈ xs -> emits Q (body x)) -> emits Q (for_range xs body).
Proof.
  induction xs as [| x xs IH]; intros Hbody; simpl.
  - apply emits_ret.
  - apply emits_bind.
    + apply Hbody. left.
    + intros _. apply IH. intros y Hy. apply Hbody. right. exact Hy.
Qed.

Ltac emits_tac :=
  repeat first
    [ apply emits_ret | apply emits_panic | apply emits_lift | apply emits_history
    | apply emits_emit; simpl; try done
    | apply emits_bind; [| intros ?]
    | apply emits_defer
    | match goal with
      | |- emits _ (match ?x with _ => _ end) => destruct x
      | |- emits _ (if ?x then _ else _) => destruct x
      | |- emits _ (let '(_, _) := ?x in _) => destruct x
      end ].






Lemma quiet_published (evs : list event) : Forall quiet evs -> published evs = [].
Proof.
  induction 1 as [| ev evs Hq _ IH]; [reflexivity |].
  destruct ev; simpl in Hq; try contradiction; exact IH.
Qed.



Lemma quiet_mapping_of (ev : event) : quiet ev -> mapping_of ev = None.
Proof.
  destruct ev as [| | | | | | | | | | | | format a]; simpl; try contradiction; try reflexivity.
  intros Hq. destruct a; try reflexivity.
  destruct (String.eqb_spec format "mapping is %+v\n"); [contradiction | reflexivity].
Qed.

(* ===================================================================== *)
(** ** The hints command *)
(* ===================================================================== *)

(** C8. A request with an empty type is rejected by Execute with the
    validation error and the trace is left as it was, so the sender is never
    called; a request with a non-empty type passes validation. *)
Theorem Execute_rejects_empty_type (ext : Externals) (e : HintsCmd) (r : HintsRequest)
    (tr : list event) :
  (Type_ r = "" ->
   Execute ext e r tr = (Done (None, Some (MultiError [ErrMsg "missing hints type"])), tr)) /\
  (Type_ r <> "" -> HintsRequest_Validate r = None).
Proof.
  split; intros Htype.
  - unfold Execute, HintsRequest_Validate. rewrite Htype. reflexivity.
  - unfold HintsRequest_Validate. destruct (Type_ r) as [| c s]; [congruence | reflexivity].
Qed.

Lemma Execute_rejects_empty_type_witness :
  Execute (sample_ext goerrors_As)
          (NewHintsCmd {| AgentID := "agent-1" |} (sender_answers 200 "created"))
          zero_request []
  = (Done (None, Some (MultiError [ErrMsg "missing hints type"])), [])
  /\ HintsRequest_Validate start_request = None.
Proof.
  split.
  - apply (Execute_rejects_empty_type (sample_ext goerrors_As)). reflexivity.
  - apply (Execute_rejects_empty_type (sample_ext goerrors_As)
             (NewHintsCmd {| AgentID := "agent-1" |} (sender_answers 200 "created"))
             start_request []).
    discriminate.
Defined.

(** C7. After a successful round trip: status 429 gives the rate-limited
    sentinel; any other status but 200 gives the error extracted from the
    body; status 200 decodes the body, and the decoded response is returned
    exactly when its action is "created", any other action being answered
    with the validation error. *)
Theorem Execute_round_trip (ext : Externals) (e : HintsCmd) (r : HintsRequest)
    (tr : list event) (b : bytes) (resp : Response) :
  let p := hintsPath (AgentID (info e)) in
  HintsRequest_Validate r = None ->
  json_Marshal_HintsRequest ext r = inl b ->
  client e (tr ++ [EvPrintf "path is %s" (PStr p)]) "POST" p b = inl resp ->
  let result := fst (Execute ext e r tr) in
  (StatusCode resp = 429 -> result = Done (None, Some ErrTooManyRequests)) /\
  (StatusCode resp <> 429 -> StatusCode resp <> 200 ->
   result = Done (None, ExtractError ext (Body resp))) /\
  (StatusCode resp = 200 ->
   forall h, json_Decode_HintsResponse ext (Body resp) = inl h ->
     (Action h = "created" -> result = Done (Some h, None)) /\
     (Action h <> "created" ->
      result = Done (None, Some (MultiError [ErrMsg "hints not created"])))).
Proof.
  intros p Hvalid Hmarshal Hsend result. subst result p.
  unfold Execute. rewrite Hvalid, Hmarshal. go_step.
  rewrite Hsend. unfold defer, StatusTooManyRequests, StatusOK. go_step.
  split; [| split].
  - intros ->. reflexivity.
  - intros H429 H200.
    destruct (Z.eqb_spec (StatusCode resp) 429); [contradiction |].
    destruct (Z.eqb_spec (StatusCode resp) 200); [contradiction |]. reflexivity.
  - intros H200 h Hdecode. rewrite H200. simpl. rewrite Hdecode.
    unfold HintsResponse_Validate. split; intros Hact.
    + rewrite Hact. reflexivity.
    + destruct (String.eqb_spec (Action h) "created"); [contradiction | reflexivity].
Qed.

Lemma Execute_round_trip_witness :
  fst (Execute (sample_ext goerrors_As)
               (NewHintsCmd {| AgentID := "agent-1" |} (sender_answers 200 "exists"))
               start_request [])
  = Done (None, Some (MultiError [ErrMsg "hints not created"])).
Proof.
  pose proof (Execute_round_trip (sample_ext goerrors_As)
                (NewHintsCmd {| AgentID := "agent-1" |} (sender_answers 200 "exists"))
                start_request [] "{}" {| StatusCode := 200; Body := "exists" |}
                eq_refl eq_refl eq_refl) as (_ & _ & H200).
  apply (H200 eq_refl {| Action := "exists" |} eq_refl). discriminate.
Defined.

(** C6. When Send fails, Execute never hands back a cause taken out of the
    error: if errors.As reports a *url.Error, reading [et.Err] through the
    still-nil [et] panics, and whenever Execute does return, the error is the
    connection-refused sentinel or the send error itself. *)
Theorem Execute_send_error (ext : Externals) (e : HintsCmd) (r : HintsRequest)
    (tr : list event) (b : bytes) (err : error) :
  let p := hintsPath (AgentID (info e)) in
  HintsRequest_Validate r = None ->
  json_Marshal_HintsRequest ext r = inl b ->
  client e (tr ++ [EvPrintf "path is %s" (PStr p)]) "POST" p b = inr err ->
  let result := fst (Execute ext e r tr) in
  (errors_As ext err (AsURLError None) = Done true -> result = Panicked nil_dereference) /\
  (forall resp err', result = Done (resp, err') ->
     resp = None /\ (err' = Some ErrConnRefused \/ err' = Some err)).
Proof.
  intros p Hvalid Hmarshal Hsend result. subst result p.
  unfold Execute. rewrite Hvalid, Hmarshal. go_step. rewrite Hsend.
  destruct (errors_As ext err (AsURLError None)) as [[|] | msg] eqn:HasURL; simpl.
  - split; [reflexivity | discriminate].
  - split; [discriminate |].
    destruct (errors_As ext err (AsNetOpError None)) as [[|] | msg]; simpl;
      intros resp err' Heq; inversion Heq; auto.
  - split; discriminate.
Qed.

Lemma Execute_send_error_witness :
  fst (Execute (sample_ext As_by_kind)
               (NewHintsCmd {| AgentID := "agent-1" |} (sender_fails url_failure))
               start_request [])
  = Panicked nil_dereference.
Proof.
  apply (Execute_send_error (sample_ext As_by_kind)
           (NewHintsCmd {| AgentID := "agent-1" |} (sender_fails url_failure))
           start_request [] "{}" url_failure eq_refl eq_refl eq_refl).
  reflexivity.
Defined.

(** With Go's own errors.As the nil target already makes the call panic, for
    a URL error as for any other send error. *)
Example goerrors_As_panics_on_send_error :
  fst (Execute (sample_ext goerrors_As)
               (NewHintsCmd {| AgentID := "agent-1" |} (sender_fails url_failure))
               start_request [])
  = Panicked "errors: target must be a non-nil pointer".
Proof. reflexivity. Qed.

Lemma Execute_quiet (ext : Externals) (e : HintsCmd) (r : HintsRequest) :
  emits quiet (Execute ext e r).
Proof. unfold Execute, Send, Printf. emits_tac. Qed.

(* ===================================================================== *)
(** ** The dispatch helper *)
(* ===================================================================== *)

(** What a call of postMappingstoFleet leaves in the trace, however it
    ends: its two prints, one NewAgentInfo, then quiet events only. *)
Lemma postMappingstoFleet_trace (ext : Externals) (k8sMapping : M) (client : Sender)
    (t : string) (tr : list event) :
  exists evs,
    snd (postMappingstoFleet ext k8sMapping client t tr)
    = tr ++ [EvPrintln (PStr "inside post to fleet");
             EvPrintf "mapping is %+v\n" (PM k8sMapping); EvNewAgentInfo] ++ evs
    /\ Forall quiet evs.
Proof.
  unfold postMappingstoFleet, Println, Printf.
  rewrite !bind_emit, bind_history, bind_emit.
  match goal with
  | |- context [snd (?rest ?t0)] =>
      assert (Hrest : emits quiet rest); [| destruct (Hrest t0) as (evs & Heq & Hq)]
  end.
  - emits_tac. apply Execute_quiet.
  - exists evs. rewrite Heq, <- !app_assoc. auto.
Qed.

(** C5. Whatever error Execute returns, postMappingstoFleet returns Execute's
    response together with a nil error: the error does not reach the caller. *)
Theorem postMappingstoFleet_drops_Execute_error (ext : Externals) (k8sMapping : M)
    (client : Sender) (t : string) (tr : list event)
    (agentInfo : AgentInfo) (jsonbody : bytes) (hintsRequest : HintsRequest)
    (resp : option HintsResponse) (err : option error) (tr' : list event) :
  let tr0 := tr ++ [EvPrintln (PStr "inside post to fleet");
                    EvPrintf "mapping is %+v\n" (PM k8sMapping)] in
  let kubMap : M := {[ "kubernetes" := VMap k8sMapping ]} in
  NewAgentInfo ext tr0 false = inl agentInfo ->
  json_Marshal_M ext kubMap = inl jsonbody ->
  json_Unmarshal_HintsRequest ext jsonbody = inl hintsRequest ->
  Execute ext (NewHintsCmd agentInfo client)
          {| AgentId := AgentId hintsRequest; Type_ := t; Kubernetes := Kubernetes hintsRequest |}
          (tr0 ++ [EvNewAgentInfo; EvPrintf "new map is %+v" (PM kubMap)])
    = (Done (resp, err), tr') ->
  postMappingstoFleet ext k8sMapping client t tr
    = (Done (resp, None), tr' ++ [EvPrintf "response is %+v" (PResp resp)]).
Proof.
  intros tr0 kubMap Hinfo Hmarshal Hunmarshal Hexec.
  unfold postMappingstoFleet. go_step.
  subst tr0 kubMap. rewrite <- !app_assoc in *. simpl in *.
  rewrite Hinfo.
  change (M_Put ∅ "kubernetes" (VMap k8sMapping))
    with (<["kubernetes" := VMap k8sMapping]> (∅ : M)).
  rewrite insert_empty, Hmarshal, Hunmarshal. go_step.
  rewrite <- !app_assoc. simpl. rewrite Hexec. reflexivity.
Qed.

Lemma postMappingstoFleet_drops_Execute_error_witness :
  fst (Execute (sample_ext goerrors_As)
               (NewHintsCmd {| AgentID := "agent-1" |} (sender_answers 429 ""))
               {| AgentId := ""; Type_ := "Start"; Kubernetes := Kubernetes zero_request |} [])
  = Done (None, Some ErrTooManyRequests)
  /\ fst (postMappingstoFleet (sample_ext goerrors_As) ∅ (sender_answers 429 "") "Start" [])
     = Done (None, None).
Proof.
  split; [reflexivity |].
  set (tr1 := [EvPrintln (PStr "inside post to fleet"); EvPrintf "mapping is %+v\n" (PM ∅);
               EvNewAgentInfo;
               EvPrintf "new map is %+v" (PM {[ "kubernetes" := VMap ∅ ]})]).
  set (cmd := NewHintsCmd {| AgentID := "agent-1" |} (sender_answers 429 "")).
  set (r := {| AgentId := ""; Type_ := "Start"; Kubernetes := Kubernetes zero_request |}).
  rewrite (postMappingstoFleet_drops_Execute_error (sample_ext goerrors_As) ∅
             (sender_answers 429 "") "Start" [] {| AgentID := "agent-1" |} "{}" zero_request
             None (Some ErrTooManyRequests)
             (snd (Execute (sample_ext goerrors_As) cmd r tr1))
             eq_refl eq_refl eq_refl eq_refl).
  reflexivity.
Defined.

(* ===================================================================== *)
(** ** Start and the delete handler *)
(* ===================================================================== *)

(** C4, as the code has it.  Start starts the node watcher if there is one,
    then the namespace watcher if there is one, then the pod watcher; the
    first start that fails ends Start with that error and nothing further is
    started; a watcher that was never constructed is passed over. *)
Theorem Start_returns_first_failure (p : pod) (tr : list event) :
  Start p tr =
    match nodeWatcher p ≫= w_Start, namespaceWatcher p ≫= w_Start with
    | Some err, _ => (Done (Some err), tr ++ started (nodeWatcher p))
    | None, Some err =>
        (Done (Some err), tr ++ started (nodeWatcher p) ++ started (namespaceWatcher p))
    | None, None =>
        (Done (w_Start (watcher p)),
         tr ++ started (nodeWatcher p) ++ started (namespaceWatcher p)
            ++ [EvStart (w_name (watcher p))])
    end.
Proof.
  unfold Start, Watcher_Start. go_step.
  destruct (nodeWatcher p) as [[n1 [e1|]]|], (namespaceWatcher p) as [[n2 [e2|]]|]; simpl;
    rewrite <- ?app_assoc, ?app_nil_r; reflexivity.
Qed.

(** A node watcher that fails to start makes Start fail, although the pod
    watcher would have started. *)
Lemma Start_aborts_on_node_watcher :
  ~ Start_as_stated
      (sample_eventer sample_metagen (Some failing_node_watcher) (sender_answers 200 "created")).
Proof. unfold Start_as_stated. simpl. discriminate. Qed.

Lemma for_range_Remove (uid : string) (cs : list Container) (tr : list event) :
  for_range cs (fun c => let eventID := uid +:+ "." +:+ c_Name c in comm_Remove eventID) tr
  = (Done tt, tr ++ map (fun c => EvRemove (uid +:+ "." +:+ c_Name c)) cs).
Proof.
  revert tr. induction cs as [| c cs IH]; intros tr; simpl.
  - rewrite app_nil_r. reflexivity.
  - unfold comm_Remove. go_step. rewrite IH, <- app_assoc. reflexivity.
Qed.

(** C2, as the code has it.  The delete handler removes nothing itself: under
    the read lock it arms one timer for the cleanup period; when that timer
    fires, the pod identity and the identity of every spec container and
    init container are removed, once. *)
Theorem OnDelete_defers_single_removal (p : pod) (pod : Pod) (tr tr' : list event) :
  OnDelete p pod tr
    = (Done tt, tr ++ [EvRLock; EvLog "debug" "pod delete: %+v" (Some (PPod pod));
                       EvAfterFunc (cleanupTimeout p) pod; EvRUnlock]) /\
  OnDelete_func1 p pod tr' = (Done tt, tr' ++ map EvRemove (stop_ids pod)).
Proof.
  split.
  - unfold OnDelete, defer. go_step. rewrite <- !app_assoc. reflexivity.
  - unfold OnDelete_func1, emitStopped, mbind, Go_bind.
    change (comm_Remove (pod_UID pod) tr') with (Done tt, tr' ++ [EvRemove (pod_UID pod)]).
    cbv iota beta. rewrite !for_range_Remove. unfold stop_ids.
    rewrite map_cons, !map_app, !map_map, <- !app_assoc. reflexivity.
Qed.

(** The handler returns without a single Remove. *)
Lemma OnDelete_removes_nothing :
  ~ OnDelete_as_stated
      (sample_eventer sample_metagen None (sender_answers 200 "created")) (sample_pod []).
Proof. unfold OnDelete_as_stated. simpl. intros [Hnow _]. discriminate Hnow. Qed.

(* ===================================================================== *)
(** ** Metadata that cannot be generated *)
(* ===================================================================== *)

(** C3. For a pod whose generated tree has no kubernetes entry, emitRunning
    does not skip the pod: writing "scope" into the nil mapping panics, with
    nothing published and no container looked at. *)
Theorem emitRunning_panics_without_kubernetes (ext : Externals) (p : pod) (pod : Pod)
    (tr : list event) (err : error) :
  M_GetValue (metagen p pod []) "kubernetes" = inr err ->
  emitRunning ext p pod tr = (Panicked nil_map_write, tr).
Proof.
  intros Hmeta. unfold emitRunning, generatePodData. rewrite Hmeta. reflexivity.
Qed.

Lemma emitRunning_panics_without_kubernetes_witness :
  emitRunning (sample_ext goerrors_As)
              (sample_eventer empty_metagen None (sender_answers 200 "created"))
              (sample_pod []) []
  = (Panicked nil_map_write, []).
Proof.
  apply (emitRunning_panics_without_kubernetes (sample_ext goerrors_As)
           (sample_eventer empty_metagen None (sender_answers 200 "created"))
           (sample_pod []) [] ErrKeyNotFound).
  reflexivity.
Defined.

(* ===================================================================== *)
(** ** Dotted keys and the annotation tree *)
(* ===================================================================== *)

Lemma cut_dot_head (key k rest : string) : cut_dot key = Some (k, rest) -> cut_dot k = None.
Proof.
  revert k rest. induction key as [| c key IH]; intros k rest; simpl; [discriminate |].
  destruct (Ascii.eqb c ".") eqn:Hc.
  - intros [= <- _]. reflexivity.
  - destruct (cut_dot key) as [[k' tl] |]; [| discriminate].
    intros [= <- _]. simpl. rewrite Hc, (IH k' tl eq_refl). reflexivity.
Qed.

Lemma cut_dot_shorter (key k rest : string) :
  cut_dot key = Some (k, rest) -> (String.length rest < String.length key)%nat.
Proof.
  revert k rest. induction key as [| c key IH]; intros k rest; simpl; [discriminate |].
  destruct (Ascii.eqb c ".").
  - intros [= _ <-]. lia.
  - destruct (cut_dot key) as [[k' tl] |]; [| discriminate].
    intros [= _ <-]. specialize (IH k' tl eq_refl). lia.
Qed.

Lemma cut_dot_empty (key : string) : String.length key = 0%nat -> cut_dot key = None.
Proof. destruct key; [reflexivity | discriminate]. Qed.

(** The walks are bounded by the key length: more fuel changes nothing. *)
Lemma safemapstr_put_fuel (n m : nat) (data : M) (key : string) (v : value) :
  (String.length key <= n)%nat -> (String.length key <= m)%nat ->
  safemapstr_put n data key v = safemapstr_put m data key v.
Proof.
  revert m data key. induction n as [| n IH]; intros m data key Hn Hm.
  - destruct m; simpl; rewrite (cut_dot_empty key) by lia; reflexivity.
  - destruct m as [| m].
    + simpl. rewrite (cut_dot_empty key) by lia. reflexivity.
    + simpl. destruct (data !! key); [reflexivity |].
      destruct (cut_dot key) as [[k rest] |] eqn:Hcut; [| reflexivity].
      apply cut_dot_shorter in Hcut. rewrite (IH m) by lia. reflexivity.
Qed.

Lemma mapFind_fuel (n m : nat) (key : string) (data : M) :
  (String.length key <= n)%nat -> (String.length key <= m)%nat ->
  mapFind n key data = mapFind m key data.
Proof.
  revert m data key. induction n as [| n IH]; intros m data key Hn Hm.
  - destruct m; simpl; rewrite (cut_dot_empty key) by lia; reflexivity.
  - destruct m as [| m].
    + simpl. rewrite (cut_dot_empty key) by lia. reflexivity.
    + simpl. destruct (data !! key); [reflexivity |].
      destruct (cut_dot key) as [[k rest] |] eqn:Hcut; [| reflexivity].
      apply cut_dot_shorter in Hcut.
      destruct (data !! k) as [[s | sub] |]; try reflexivity. apply IH; lia.
Qed.

Lemma head_key_dotfree (key : string) : cut_dot (head_key key) = None.
Proof.
  unfold head_key. destruct (cut_dot key) as [[k rest] |] eqn:Hcut; [| exact Hcut].
  eapply cut_dot_head, Hcut.
Qed.

Lemma cut_dot_split (key k rest : string) :
  cut_dot key = Some (k, rest) -> key = k +:+ "." +:+ rest.
Proof.
  revert k rest. induction key as [| c key IH]; intros k rest; simpl; [discriminate |].
  destruct (Ascii.eqb_spec c ".") as [-> | Hc].
  - intros [= <- <-]. reflexivity.
  - destruct (cut_dot key) as [[k' tl] |]; [| discriminate].
    intros [= <- <-]. exact (f_equal (String c) (IH k' tl eq_refl)).
Qed.

Lemma prefix_append (p s : string) : String.prefix p s = true <-> exists r, s = p +:+ r.
Proof.
  revert s. induction p as [| c p IH]; intros s.
  - split; [exists s; reflexivity | destruct s; reflexivity].
  - destruct s as [| d s]; simpl; [split; [discriminate | intros [r [=]]] |].
    destruct (ascii_dec c d) as [-> | Hne].
    + rewrite IH. split; intros [r Hr]; exists r.
      * rewrite Hr. reflexivity.
      * injection Hr as Hr. exact Hr.
    + split; [discriminate | intros [r Hr]; injection Hr as Hcd _; congruence].
Qed.

Lemma head_key_hint (key : string) : hint_annotation key = true <-> head_key key = hintsKey.
Proof.
  unfold hint_annotation, head_key. rewrite orb_true_iff, String.eqb_eq, prefix_append.
  split.
  - intros [-> | [r ->]]; [reflexivity |].
    reflexivity.
  - destruct (cut_dot key) as [[k rest] |] eqn:Hcut; [| auto].
    intros ->. right. exists rest. exact (cut_dot_split _ _ _ Hcut).
Qed.

Lemma safemapstr_put_dom (fuel : nat) (data : M) (key : string) (v : value) :
  dotfree_keys data ->
  dom (safemapstr_put fuel data key v) = {[ head_key key ]} ∪ dom data.
Proof.
  intros Hfree. unfold head_key.
  destruct fuel as [| fuel]; simpl;
    (destruct (data !! key) as [old |] eqn:Hkey;
     [ assert (Hin : key ∈ dom data) by (apply elem_of_dom; eauto);
       rewrite (Hfree key Hin);
       destruct (tryToMapStr old); rewrite dom_insert_L; reflexivity
     | destruct (cut_dot key) as [[k rest] |]; rewrite dom_insert_L; reflexivity ]).
Qed.

Lemma safemapstr_Put_dotfree (data : M) (key : string) (v : value) :
  dotfree_keys data -> dotfree_keys (safemapstr_Put data key v).
Proof.
  intros Hfree k. unfold safemapstr_Put. rewrite safemapstr_put_dom by exact Hfree.
  rewrite elem_of_union, elem_of_singleton. intros [-> | Hin].
  - apply head_key_dotfree.
  - apply Hfree, Hin.
Qed.

Lemma annotations_dom (l : list (string * string)) (acc : M) :
  dotfree_keys acc ->
  forall k,
    k ∈ dom (fold_left (fun annotations '(k, v) => safemapstr_Put annotations k (VStr v)) l acc)
    <-> k ∈ dom acc \/ exists kv, kv ∈ l /\ head_key (fst kv) = k.
Proof.
  revert acc. induction l as [| [k0 v0] l IH]; intros acc Hfree k; simpl.
  - split; [auto | intros [H | (kv & Hin & _)]; [exact H | inversion Hin]].
  - rewrite IH by (apply safemapstr_Put_dotfree, Hfree).
    unfold safemapstr_Put at 1. rewrite safemapstr_put_dom by exact Hfree.
    rewrite elem_of_union, elem_of_singleton. split.
    + intros [[-> | H] | (kv & Hin & Hk)]; [right | left | right].
      * exists (k0, v0). split; [left | reflexivity].
      * exact H.
      * exists kv. split; [right; exact Hin | exact Hk].
    + intros [H | (kv & Hin & Hk)]; [left; right; exact H |].
      apply elem_of_cons in Hin as [-> | Hin]; [left; left; symmetry; exact Hk |].
      right. exists kv. split; assumption.
Qed.

Lemma checkForHints_dom (m : M) : checkForHints m = bool_decide (hintsKey ∈ dom m).
Proof.
  unfold checkForHints, M_HasKey. simpl.
  destruct (m !! hintsKey) as [v |] eqn:Hk; simpl; symmetry.
  - apply bool_decide_eq_true_2. apply (elem_of_dom m hintsKey). rewrite Hk. eexists; reflexivity.
  - apply bool_decide_eq_false_2. rewrite (elem_of_dom m hintsKey), Hk. intros [? [=]].
Qed.

Lemma M_Delete_kubectl (m : M) (k : string) :
  k <> "kubectl" -> k ∈ dom (M_Delete m "kubectl") <-> k ∈ dom m.
Proof.
  intros Hne. unfold M_Delete. simpl.
  destruct (m !! "kubectl"); [| reflexivity].
  rewrite dom_delete_L, elem_of_difference, elem_of_singleton. tauto.
Qed.

Lemma checkForHints_hinted (pod : Pod) :
  checkForHints
    (M_Delete (fold_left (fun annotations '(k, v) => safemapstr_Put annotations k (VStr v))
                         (pod_Annotations pod) ∅) "kubectl")
  = hinted pod.
Proof.
  rewrite checkForHints_dom. unfold hinted.
  apply eq_true_iff_eq. rewrite bool_decide_eq_true, existsb_exists.
  rewrite M_Delete_kubectl by discriminate.
  rewrite annotations_dom by (intros k Hk; rewrite dom_empty_L in Hk; set_solver).
  rewrite dom_empty_L. split.
  - intros [H | (kv & Hin & Hk)]; [set_solver |].
    exists kv. split; [apply list_elem_of_In, Hin | apply head_key_hint, Hk].
  - intros (kv & Hin & Hk). right. exists kv.
    split; [apply list_elem_of_In, Hin | apply head_key_hint, Hk].
Qed.


(* ===================================================================== *)
(** ** The container loop *)
(* ===================================================================== *)

Lemma for_range_skip {A : Type} (keep : A -> bool) (xs : list A) (body : A -> Go unit) :
  (forall x tr, keep x = false -> body x tr = (Done tt, tr)) ->
  forall tr, for_range xs body tr = for_range (List.filter keep xs) body tr.
Proof.
  intros Hskip. induction xs as [| x xs IH]; intros tr; simpl; [reflexivity |].
  destruct (keep x) eqn:Hk; simpl; unfold mbind, Go_bind.
  - destruct (body x tr) as [[[] | msg] tr1]; [apply IH | reflexivity].
  - rewrite (Hskip x tr Hk). apply IH.
Qed.

(** C9. Containers without a runtime identifier leave no mark: the run of
    generateContainerData, outcome and trace, is the run over the pod's
    containers with those containers taken out. *)
Theorem generateContainerData_skips_not_running (ext : Externals) (pod : Pod)
    (kubeMetaGen : MetaGen) (namespaceAnnotations : M) (client : Sender) (tr : list event) :
  generateContainerData ext pod kubeMetaGen namespaceAnnotations client tr
  = generateContainerData
      (with_containers ext (fun pod => List.filter running (GetContainersInPod ext pod)))
      pod kubeMetaGen namespaceAnnotations client tr.
Proof.
  unfold generateContainerData. go_step.
  apply for_range_skip. intros c tr1 Hc. unfold running in Hc.
  apply negb_false_iff in Hc. rewrite Hc. reflexivity.
Qed.




(* ===================================================================== *)
(** ** Ports of an emitted container *)
(* ===================================================================== *)

Lemma quiet_carries (P : M -> Prop) (ev : event) : quiet ev -> carries P ev.
Proof. intros Hq m Hm. rewrite (quiet_mapping_of ev Hq) in Hm. discriminate. Qed.

Lemma carries_emitted (P : M -> Prop) (evs : list event) :
  Forall (carries P) evs -> Forall P (emitted_mappings evs).
Proof.
  induction 1 as [| ev evs Hev _ IH]; [constructor |].
  unfold emitted_mappings. simpl. destruct (mapping_of ev) as [m |] eqn:Hm; [| exact IH].
  constructor; [apply Hev, Hm | exact IH].
Qed.

Lemma M_Put_dotfree (m : M) (key : string) (v : value) :
  cut_dot key = None -> M_Put m key v = <[key := v]> m.
Proof.
  intros Hfree. unfold M_Put. destruct (String.length key); simpl;
    destruct (m !! key); rewrite ?Hfree; reflexivity.
Qed.

Lemma postMappingstoFleet_carries (P : M -> Prop) (ext : Externals) (k8sMapping : M)
    (client : Sender) (t : string) :
  P k8sMapping -> emits (carries P) (postMappingstoFleet ext k8sMapping client t).
Proof.
  intros HP tr. destruct (postMappingstoFleet_trace ext k8sMapping client t tr) as (evs & Heq & Hq).
  eexists. split; [exact Heq |].
  repeat constructor.
  - intros m [=].
  - intros m [= <-]. exact HP.
  - intros m [=].
  - eapply Forall_impl; [exact Hq | apply quiet_carries].
Qed.

Section Ports.
Context (F := fun '(containerMeta, k8sMapping) (port : ContainerPort) =>
               let containerMeta : M :=
                 M_Put containerMeta "port" (VStr (Sprintf_v (port_ContainerPort port))) in
               let containerMeta :=
                 M_Put containerMeta "port_name" (VStr (port_Name port)) in
               (containerMeta, <["container" := VMap containerMeta]> (k8sMapping : M))).




End Ports.






(* ===================================================================== *)
(** ** The properties on sample pods *)
(* ===================================================================== *)




(** On that pod postMappingstoFleet is called once per container; whether a
    request follows is the codec's matter, the sample codec accepts any
    tree. *)
Example dotted_annotation_run :
  let evs := snd (generateContainerData (sample_ext goerrors_As) dotted_pod sample_metagen ∅
                    (sender_answers 200 "created") []) in
  published evs = [] /\ dispatches evs = 2%nat.
Proof. vm_compute. split; reflexivity. Qed.

(** The part of C3 that holds: a container whose generated tree has no
    kubernetes entry is passed over and the loop goes on. *)
Lemma generateContainerData_skips_failed_metadata (ext : Externals) (pod : Pod)
    (kubeMetaGen : MetaGen) (namespaceAnnotations : M) (client : Sender) (tr : list event) :
  generateContainerData ext pod kubeMetaGen namespaceAnnotations client tr
  = generateContainerData
      (with_containers ext
         (fun pod => List.filter (has_metadata kubeMetaGen pod) (GetContainersInPod ext pod)))
      pod kubeMetaGen namespaceAnnotations client tr.
Proof.
  unfold generateContainerData. go_step.
  apply for_range_skip. intros c tr1 Hc. unfold has_metadata in Hc.
  destruct (String.eqb (ID c) ""); [reflexivity |].
  destruct (M_GetValue _ "kubernetes") as [v | err]; [discriminate | reflexivity].
Qed.

(** After a rate-limited dispatch the loop prints a nil error for each
    container. *)
Example loop_prints_nil_error :
  printed_errors
    (snd (generateContainerData (sample_ext goerrors_As)
            (sample_pod [("elastic-co-hints/package", "nginx")]) sample_metagen ∅
            (sender_answers 429 "") []))
  = [None; None].
Proof. vm_compute. reflexivity. Qed.

(** The two sample containers: "app" declares ports 80 and 443, "init1"
    declares none. *)
Example sample_ports :
  let ms := emitted_mappings
              (snd (generateContainerData (sample_ext goerrors_As) (sample_pod [])
                      sample_metagen ∅ (sender_answers 200 "created") [])) in
  map (fun m => container_field m "port") ms = [Some (VStr "443"); None]
  /\ map (fun m => container_field m "port_name") ms = [Some (VStr "https"); None].
Proof. vm_compute. split; reflexivity. Qed.

(** A pod whose only container is not running yet: two prints, nothing else. *)
Example not_running_is_silent :
  snd (generateContainerData
         (with_containers (sample_ext goerrors_As)
            (fun _ => [ {| ID := ""; Runtime := ""; Spec := app |} ]))
         (sample_pod []) sample_metagen ∅ (sender_answers 200 "created") [])
  = [EvPrintln (PM ∅); EvPrintln (PStr "web")].
Proof. vm_compute. reflexivity. Qed.

(** The same two containers on the dispatch path. *)
Example sample_ports_dispatched :
  let ms := emitted_mappings
              (snd (generateContainerData (sample_ext goerrors_As)
                      (sample_pod [("elastic-co-hints/package", "nginx")])
                      sample_metagen ∅ (sender_answers 200 "created") [])) in
  map (fun m => container_field m "port") ms = [Some (VStr "443"); None]
  /\ map (fun m => container_field m "port_name") ms = [Some (VStr "https"); None].
Proof. vm_compute. split; reflexivity. Qed.

(* ===================================================================== *)
(** ** Further properties of the hints command *)
(* ===================================================================== *)

Lemma since_app {A : Type} (tr evs : list event) (m : Go A) :
  snd (m tr) = tr ++ evs -> since tr m = evs.
Proof. intros H. unfold since. rewrite H. apply drop_app_length. Qed.

Lemma HintsResponse_Validate_None (h : HintsResponse) :
  HintsResponse_Validate h = None -> Action h = "created".
Proof.
  unfold HintsResponse_Validate.
  destruct (String.eqb_spec (Action h) "created"); [auto | discriminate].
Qed.

Ltac break_match :=
  match goal with
  | |- context [match ?x with _ => _ end] => destruct x eqn:?
  | H : context [match ?x with _ => _ end] |- _ => destruct x eqn:?
  end.

(** X1. A response handed back by Execute always comes with a nil error and
    has the action "created". *)
Theorem Execute_response_is_created (ext : Externals) (e : HintsCmd) (r : HintsRequest)
    (tr : list event) (h : HintsResponse) (err : option error) :
  fst (Execute ext e r tr) = Done (Some h, err) -> err = None /\ Action h = "created".
Proof.
  unfold Execute, defer, Send. go_step.
  repeat (break_match; simpl in *; try discriminate);
    intros Heq; simplify_eq; split; [reflexivity |];
    apply HintsResponse_Validate_None; assumption.
Qed.

Lemma Execute_response_is_created_witness :
  (None : option error) = None /\ Action {| Action := "created" |} = "created".
Proof.
  apply (Execute_response_is_created (sample_ext goerrors_As)
           (sample_cmd (sender_answers 200 "created")) start_request []).
  reflexivity.
Defined.

Lemma Execute_trace (ext : Externals) (e : HintsCmd) (r : HintsRequest) (tr : list event) :
  snd (Execute ext e r tr) = tr ++ Execute_events ext e r tr.
Proof.
  unfold Execute_events, Execute, defer, Send, StatusTooManyRequests, StatusOK. go_step.
  destruct (HintsRequest_Validate r); simpl; [rewrite app_nil_r; reflexivity |].
  destruct (json_Marshal_HintsRequest ext r) as [b | err]; simpl;
    [| rewrite app_nil_r; reflexivity].
  destruct (client e _ "POST" _ b) as [resp | err]; simpl.
  - destruct (Z.eqb_spec (StatusCode resp) 429) as [H429 | H429]; simpl.
    + rewrite H429. simpl. rewrite <- !app_assoc. reflexivity.
    + destruct (Z.eqb_spec (StatusCode resp) 200); simpl.
      * repeat (break_match; simpl in *); simplify_eq; rewrite <- !app_assoc; reflexivity.
      * rewrite <- !app_assoc. reflexivity.
  - repeat (break_match; simpl in *); rewrite <- !app_assoc; reflexivity.
Qed.

Lemma sent_Execute_events (ext : Externals) (e : HintsCmd) (r : HintsRequest)
    (tr : list event) :
  sent (Execute_events ext e r tr)
  = match HintsRequest_Validate r, json_Marshal_HintsRequest ext r with
    | None, inl b => [("POST", hintsPath (AgentID (info e)), b)]
    | _, _ => []
    end.
Proof.
  unfold Execute_events.
  destruct (HintsRequest_Validate r); [reflexivity |].
  destruct (json_Marshal_HintsRequest ext r) as [b | err]; [| reflexivity].
  destruct (client e _ "POST" _ b) as [resp | err]; [| reflexivity].
  destruct (StatusCode resp =? 200); reflexivity.
Qed.

(** X2. Execute calls the sender at most once: exactly once, with POST, the
    hints path of the agent and the encoded request, when the request is
    valid and can be encoded, and not at all otherwise. *)
Theorem Execute_sends_once (ext : Externals) (e : HintsCmd) (r : HintsRequest)
    (tr : list event) :
  sent (since tr (Execute ext e r))
  = match HintsRequest_Validate r, json_Marshal_HintsRequest ext r with
    | None, inl b => [("POST", hintsPath (AgentID (info e)), b)]
    | _, _ => []
    end.
Proof.
  rewrite (since_app tr _ _ (Execute_trace ext e r tr)). apply sent_Execute_events.
Qed.

(** X3. When Send answers with a response, Execute closes its body exactly
    once, as the last thing it does, whatever the status and the body; when
    Send fails there is no body to close. *)
Theorem Execute_closes_body (ext : Externals) (e : HintsCmd) (r : HintsRequest)
    (tr : list event) (b : bytes) :
  let p := hintsPath (AgentID (info e)) in
  HintsRequest_Validate r = None ->
  json_Marshal_HintsRequest ext r = inl b ->
  let evs := since tr (Execute ext e r) in
  match client e (tr ++ [EvPrintf "path is %s" (PStr p)]) "POST" p b with
  | inl _ => body_closes evs = 1%nat /\ last evs = Some EvBodyClose
  | inr _ => body_closes evs = 0%nat
  end.
Proof.
  intros p Hvalid Hmarshal evs. subst evs p.
  rewrite (since_app tr _ _ (Execute_trace ext e r tr)). unfold Execute_events.
  rewrite Hvalid, Hmarshal.
  destruct (client e _ "POST" _ b) as [resp | err]; [| reflexivity].
  destruct (StatusCode resp =? 200); split; reflexivity.
Qed.

Lemma Execute_closes_body_witness :
  let evs := since [] (Execute (sample_ext goerrors_As) (sample_cmd (sender_answers 429 ""))
                               start_request) in
  body_closes evs = 1%nat /\ last evs = Some EvBodyClose.
Proof.
  exact (Execute_closes_body (sample_ext goerrors_As) (sample_cmd (sender_answers 429 ""))
           start_request [] "{}" eq_refl eq_refl).
Defined.

(** A valid request that cannot be encoded ends Execute with the wrapped
    encoding error, before anything is printed or sent. *)
Theorem Execute_encode_failure (ext : Externals) (e : HintsCmd) (r : HintsRequest)
    (tr : list event) (err : error) :
  HintsRequest_Validate r = None ->
  json_Marshal_HintsRequest ext r = inr err ->
  Execute ext e r tr
  = (Done (None, Some (ErrWrap err "fail to encode the hints request")), tr).
Proof. intros Hvalid Hmarshal. unfold Execute. rewrite Hvalid, Hmarshal. reflexivity. Qed.

Lemma Execute_encode_failure_witness :
  Execute (custom_ext (inl {| AgentID := "agent-1" |}) (inr (ErrMsg "unsupported value"))
                      (fun b => inl {| Action := b |}))
          (sample_cmd (sender_answers 200 "created")) start_request []
  = (Done (None, Some (ErrWrap (ErrMsg "unsupported value")
                               "fail to encode the hints request")), []).
Proof.
  apply (Execute_encode_failure
           (custom_ext (inl {| AgentID := "agent-1" |}) (inr (ErrMsg "unsupported value"))
                       (fun b => inl {| Action := b |}))
           (sample_cmd (sender_answers 200 "created")) start_request []);
    reflexivity.
Defined.

(** A 200 response whose body cannot be decoded ends Execute with the
    wrapped decoding error and no response. *)
Theorem Execute_decode_failure (ext : Externals) (e : HintsCmd) (r : HintsRequest)
    (tr : list event) (b : bytes) (resp : Response) (err : error) :
  let p := hintsPath (AgentID (info e)) in
  HintsRequest_Validate r = None ->
  json_Marshal_HintsRequest ext r = inl b ->
  client e (tr ++ [EvPrintf "path is %s" (PStr p)]) "POST" p b = inl resp ->
  StatusCode resp = 200 ->
  json_Decode_HintsResponse ext (Body resp) = inr err ->
  fst (Execute ext e r tr) = Done (None, Some (ErrWrap err "fail to decode hints response")).
Proof.
  intros p Hvalid Hmarshal Hsend H200 Hdecode. subst p.
  unfold Execute. rewrite Hvalid, Hmarshal. go_step. rewrite Hsend.
  unfold defer, StatusTooManyRequests, StatusOK. go_step. rewrite H200. simpl.
  rewrite Hdecode. reflexivity.
Qed.

Lemma Execute_decode_failure_witness :
  fst (Execute (custom_ext (inl {| AgentID := "agent-1" |}) (inl "{}")
                           (fun _ => inr (ErrMsg "unexpected end of JSON input")))
               (sample_cmd (sender_answers 200 "")) start_request [])
  = Done (None, Some (ErrWrap (ErrMsg "unexpected end of JSON input")
                              "fail to decode hints response")).
Proof.
  apply (Execute_decode_failure
           (custom_ext (inl {| AgentID := "agent-1" |}) (inl "{}")
                       (fun _ => inr (ErrMsg "unexpected end of JSON input")))
           (sample_cmd (sender_answers 200 "")) start_request [] "{}"
           {| StatusCode := 200; Body := "" |});
    reflexivity.
Defined.

(* ===================================================================== *)
(** ** Further properties of the dispatch helper *)
(* ===================================================================== *)

(** The events of one postMappingstoFleet call up to the point where it
    hands over to Execute. *)
Lemma postMappingstoFleet_run (ext : Externals) (k8sMapping : M) (client : Sender)
    (t : string) (tr : list event) :
  let tr0 := tr ++ [EvPrintln (PStr "inside post to fleet");
                    EvPrintf "mapping is %+v\n" (PM k8sMapping)] in
  let kubMap : M := {[ "kubernetes" := VMap k8sMapping ]} in
  postMappingstoFleet ext k8sMapping client t tr
  = match NewAgentInfo ext tr0 false with
    | inr err => (Done (None, Some err), tr0 ++ [EvNewAgentInfo])
    | inl agentInfo =>
        let tr1 := tr0 ++ [EvNewAgentInfo; EvPrintf "new map is %+v" (PM kubMap)] in
        match json_Marshal_M ext kubMap with
        | inr err => (Done (None, Some err), tr1)
        | inl jsonbody =>
            match json_Unmarshal_HintsRequest ext jsonbody with
            | inr err => (Done (None, Some err), tr1)
            | inl hintsRequest =>
                match Execute ext (NewHintsCmd agentInfo client)
                        {| AgentId := AgentId hintsRequest; Type_ := t;
                           Kubernetes := Kubernetes hintsRequest |} tr1 with
                | (Done (resp, _), tr') =>
                    (Done (resp, None), tr' ++ [EvPrintf "response is %+v" (PResp resp)])
                | (Panicked msg, tr') => (Panicked msg, tr')
                end
            end
        end
    end.
Proof.
  intros tr0 kubMap. subst tr0 kubMap.
  unfold postMappingstoFleet, Println, Printf.
  rewrite !bind_emit, bind_history, bind_emit. rewrite <- !app_assoc. simpl.
  destruct (NewAgentInfo ext _ false) as [agentInfo | err]; [| reflexivity].
  change (M_Put ∅ "kubernetes" (VMap k8sMapping))
    with (<["kubernetes" := VMap k8sMapping]> (∅ : M)).
  rewrite insert_empty, bind_emit, <- !app_assoc. simpl.
  destruct (json_Marshal_M ext _) as [jsonbody | err]; [| reflexivity].
  destruct (json_Unmarshal_HintsRequest ext jsonbody) as [hintsRequest | err]; [| reflexivity].
  unfold mbind, Go_bind.
  destruct (Execute _ _ _ _) as [[[resp err] | msg] tr']; reflexivity.
Qed.

Lemma sent_app (a b : list event) : sent (a ++ b) = sent a ++ sent b.
Proof. apply omap_app. Qed.

(** X4. When the agent info cannot be loaded, or the mapping cannot be turned
    into a request through JSON, postMappingstoFleet returns that error and
    no request is sent. *)
Theorem postMappingstoFleet_fails_before_sending (ext : Externals) (k8sMapping : M)
    (client : Sender) (t : string) (tr : list event) (err : error) :
  let tr0 := tr ++ [EvPrintln (PStr "inside post to fleet");
                    EvPrintf "mapping is %+v\n" (PM k8sMapping)] in
  let kubMap : M := {[ "kubernetes" := VMap k8sMapping ]} in
  (NewAgentInfo ext tr0 false = inr err
   \/ (exists agentInfo, NewAgentInfo ext tr0 false = inl agentInfo)
      /\ (json_Marshal_M ext kubMap = inr err
          \/ exists jsonbody, json_Marshal_M ext kubMap = inl jsonbody
                              /\ json_Unmarshal_HintsRequest ext jsonbody = inr err)) ->
  fst (postMappingstoFleet ext k8sMapping client t tr) = Done (None, Some err)
  /\ sent (since tr (postMappingstoFleet ext k8sMapping client t)) = [].
Proof.
  intros tr0 kubMap Hfail. unfold since. rewrite postMappingstoFleet_run.
  fold tr0 kubMap.
  destruct Hfail as [Hinfo | [[agentInfo Hinfo] [Hm | (jsonbody & Hm & Hu)]]];
    rewrite Hinfo; simpl; rewrite ?Hm; simpl; rewrite ?Hu; simpl;
    subst tr0; rewrite <- ?app_assoc, drop_app_length; auto.
Qed.

Lemma postMappingstoFleet_fails_before_sending_witness :
  let ext := custom_ext (inr (ErrMsg "agent info unavailable")) (inl "{}")
                        (fun b => inl {| Action := b |}) in
  fst (postMappingstoFleet ext ∅ (sender_answers 200 "created") "Start" [])
  = Done (None, Some (ErrMsg "agent info unavailable"))
  /\ sent (since [] (postMappingstoFleet ext ∅ (sender_answers 200 "created") "Start")) = [].
Proof.
  apply (postMappingstoFleet_fails_before_sending
           (custom_ext (inr (ErrMsg "agent info unavailable")) (inl "{}")
                       (fun b => inl {| Action := b |}))
           ∅ (sender_answers 200 "created") "Start" []).
  left. reflexivity.
Defined.

(** X5. When agent info and JSON conversion succeed and the event type is not
    empty, postMappingstoFleet sends exactly one request: a POST to the hints
    path of the local agent, carrying the request with that type. *)
Theorem postMappingstoFleet_sends_once (ext : Externals) (k8sMapping : M)
    (client : Sender) (t : string) (tr : list event)
    (agentInfo : AgentInfo) (jsonbody b : bytes) (hintsRequest : HintsRequest) :
  let tr0 := tr ++ [EvPrintln (PStr "inside post to fleet");
                    EvPrintf "mapping is %+v\n" (PM k8sMapping)] in
  let kubMap : M := {[ "kubernetes" := VMap k8sMapping ]} in
  let request := {| AgentId := AgentId hintsRequest; Type_ := t;
                    Kubernetes := Kubernetes hintsRequest |} in
  t <> "" ->
  NewAgentInfo ext tr0 false = inl agentInfo ->
  json_Marshal_M ext kubMap = inl jsonbody ->
  json_Unmarshal_HintsRequest ext jsonbody = inl hintsRequest ->
  json_Marshal_HintsRequest ext request = inl b ->
  sent (since tr (postMappingstoFleet ext k8sMapping client t))
  = [("POST", hintsPath (AgentID agentInfo), b)].
Proof.
  intros tr0 kubMap request Ht Hinfo Hm Hu Hb. unfold since.
  rewrite postMappingstoFleet_run. fold tr0 kubMap. rewrite Hinfo. simpl. rewrite Hm, Hu.
  fold request.
  set (tr1 := tr0 ++ _).
  pose proof (Execute_trace ext (NewHintsCmd agentInfo client) request tr1) as Htrace.
  pose proof (sent_Execute_events ext (NewHintsCmd agentInfo client) request tr1) as Hsent.
  assert (Hvalid : HintsRequest_Validate request = None).
  { unfold HintsRequest_Validate. simpl. destruct t; [congruence | reflexivity]. }
  rewrite Hvalid, Hb in Hsent. simpl in Hsent.
  remember (Execute_events ext (NewHintsCmd agentInfo client) request tr1) as evs eqn:Hevs.
  clear Hevs.
  destruct (Execute _ _ _ tr1) as [[[resp err] | msg] tr']; simpl in Htrace; subst tr';
    simpl; subst tr1 tr0; rewrite <- !app_assoc, drop_app_length; simpl;
    rewrite ?sent_app, Hsent; reflexivity.
Qed.

Lemma postMappingstoFleet_sends_once_witness :
  sent (since [] (postMappingstoFleet (sample_ext goerrors_As) ∅
                    (sender_answers 200 "created") "Start"))
  = [("POST", "/api/fleet/agents/agent-1/hints", "{}")].
Proof.
  apply (postMappingstoFleet_sends_once (sample_ext goerrors_As) ∅
           (sender_answers 200 "created") "Start" [] {| AgentID := "agent-1" |} "{}" "{}"
           zero_request);
    [discriminate | reflexivity | reflexivity | reflexivity | reflexivity].
Defined.

(* ===================================================================== *)
(** ** Further properties of the eventer *)
(* ===================================================================== *)

(** X6. When the optional watchers that exist start without error, Start
    starts the node, namespace and pod watcher in this order and returns what
    the pod watcher returns; Stop stops the same watchers in the reverse
    order and cannot fail. *)
Theorem Stop_reverses_Start (p : pod) (tr : list event) :
  nodeWatcher p ≫= w_Start = None ->
  namespaceWatcher p ≫= w_Start = None ->
  Start p tr = (Done (w_Start (watcher p)),
                tr ++ map (fun w => EvStart (w_name w)) (watchers_of p))
  /\ Stop p tr = (Done tt, tr ++ map (fun w => EvStop (w_name w)) (rev (watchers_of p))).
Proof.
  unfold Start, Stop, Watcher_Start, Watcher_Stop, watchers_of. go_step.
  destruct (nodeWatcher p) as [[n1 s1] |], (namespaceWatcher p) as [[n2 s2] |]; simpl;
    intros H1 H2; subst; simpl; rewrite <- ?app_assoc, ?app_nil_r; split; reflexivity.
Qed.

Lemma Stop_reverses_Start_witness :
  let p := sample_eventer sample_metagen
             (Some {| w_name := "agent-node"; w_Start := None |})
             (sender_answers 200 "created") in
  Start p [] = (Done None, [EvStart "agent-node"; EvStart "agent-pod"])
  /\ Stop p [] = (Done tt, [EvStop "agent-pod"; EvStop "agent-node"]).
Proof.
  apply (Stop_reverses_Start
           (sample_eventer sample_metagen
              (Some {| w_name := "agent-node"; w_Start := None |})
              (sender_answers 200 "created")) []);
    reflexivity.
Defined.

Lemma postMappingstoFleet_emits (Q : event -> Prop) (ext : Externals) (k8sMapping : M)
    (client : Sender) (t : string) :
  (forall ev, quiet ev -> Q ev) -> Q EvNewAgentInfo ->
  Q (EvPrintf "mapping is %+v\n" (PM k8sMapping)) ->
  emits Q (postMappingstoFleet ext k8sMapping client t).
Proof.
  intros Hquiet Hinfo Hmap tr.
  destruct (postMappingstoFleet_trace ext k8sMapping client t tr) as (evs & Heq & Hq).
  eexists. split; [exact Heq |]. simpl.
  constructor; [apply Hquiet; exact I |]. constructor; [exact Hmap |].
  constructor; [exact Hinfo |]. eapply Forall_impl; eauto.
Qed.

(** What the container loop emits, by the pod's hint decision. *)
Lemma generateContainerData_emits (Q : event -> Prop) (ext : Externals) (pod : Pod)
    (kubeMetaGen : MetaGen) (namespaceAnnotations : M) (client : Sender) :
  (forall a, Q (EvPrintln a)) ->
  (hinted pod = true ->
   (forall ev, quiet ev -> Q ev) /\ Q EvNewAgentInfo
   /\ forall m, Q (EvPrintf "mapping is %+v\n" (PM m))) ->
  (hinted pod = false ->
   forall c m procs, c ∈ GetContainersInPod ext pod -> ID c <> "" ->
     Q (EvAddOrUpdate (eventID_of pod c) (ContainerPriority ext) m procs)) ->
  emits Q (generateContainerData ext pod kubeMetaGen namespaceAnnotations client).
Proof.
  intros Hprint Hhint Hpub. unfold generateContainerData, Println.
  apply emits_bind; [apply emits_emit, Hprint | intros _].
  apply emits_bind; [apply emits_emit, Hprint | intros _].
  apply emits_for_range. intros c Hc. unfold continue.
  destruct (String.eqb_spec (ID c) "") as [| HID]; [apply emits_ret |].
  destruct (M_GetValue _ "kubernetes") as [[s | kubemetaMap] | err];
    [apply emits_panic | | apply emits_ret].
  match goal with
  | |- context [let '(_, _) := ?x in _] => destruct x as [containerMeta k8sMapping]
  end.
  apply emits_bind; [apply emits_emit, Hprint | intros _].
  apply emits_bind; [apply emits_emit, Hprint | intros _].
  rewrite checkForHints_hinted. destruct (hinted pod).
  - destruct (Hhint eq_refl) as (Hquiet & Hinfo & Hmap).
    apply emits_bind; [apply postMappingstoFleet_emits; auto | intros [resp err]].
    apply emits_emit, Hquiet. simpl. discriminate.
  - apply emits_emit. apply (Hpub eq_refl); assumption.
Qed.

Lemma emits_bind_Done {A B : Type} (Q : event -> Prop) (a : A) (k : A -> Go B) :
  emits Q (k a) -> emits Q (lift (Done a) ≫= k).
Proof. intros H tr. exact (H tr). Qed.

Lemma emits_bind_Panicked {A B : Type} (Q : event -> Prop) (msg : string) (k : A -> Go B) :
  emits Q (lift (Panicked msg) ≫= k).
Proof. intros tr. exists []. split; [symmetry; apply app_nil_r | constructor]. Qed.

(** generatePodData either gives up with the zero value or answers for the
    pod it was given. *)
Lemma generatePodData_uid (pod : Pod) (kubeMetaGen : MetaGen) (namespaceAnnotations : M)
    (data : providerData) :
  generatePodData pod kubeMetaGen namespaceAnnotations = Done data ->
  mapping data = None \/ uid data = pod_UID pod.
Proof.
  unfold generatePodData.
  destruct (M_GetValue _ "kubernetes") as [[s | kubemetaMap] | err]; intros [= <-];
    [right | left]; reflexivity.
Qed.

Lemma emitRunning_emits (Q : event -> Prop) (ext : Externals) (p : pod) (pod : Pod) :
  (forall a, Q (EvPrintln a)) ->
  (forall level format arg, Q (EvLog level format arg)) ->
  (hinted pod = true ->
   (forall ev, quiet ev -> Q ev) /\ Q EvNewAgentInfo
   /\ forall m, Q (EvPrintf "mapping is %+v\n" (PM m))) ->
  (hinted pod = false ->
   forall c m procs, c ∈ GetContainersInPod ext pod -> ID c <> "" ->
     Q (EvAddOrUpdate (eventID_of pod c) (ContainerPriority ext) m procs)) ->
  (forall m procs, Q (EvAddOrUpdate (pod_UID pod) (PodPriority ext) m procs)) ->
  emits Q (emitRunning ext p pod).
Proof.
  intros Hprint Hlog Hhint Hpub Hpod. unfold emitRunning, emitContainers, Logf.
  destruct (generatePodData pod (metagen p) _) as [data | msg] eqn:Hdata;
    [apply emits_bind_Done | apply emits_bind_Panicked].
  apply generatePodData_uid in Hdata as [Hnil | Huid].
  - rewrite Hnil. intros tr. exists []. split; [symmetry; apply app_nil_r | constructor].
  - rewrite Huid. destruct (mapping data) as [m |].
    + apply emits_bind; [apply emits_ret | intros data_mapping].
      apply emits_bind; [apply emits_emit, Hpod | intros _].
      apply emits_bind; [apply emits_emit, Hlog | intros _].
      apply generateContainerData_emits; assumption.
    + intros tr. exists []. split; [symmetry; apply app_nil_r | constructor].
Qed.

Lemma emits_since {A : Type} (Q : event -> Prop) (m : Go A) (tr : list event) :
  emits Q m -> Forall Q (since tr m).
Proof.
  intros Hm. destruct (Hm tr) as (evs & Heq & Hall). rewrite (since_app tr evs _ Heq).
  exact Hall.
Qed.

Lemma quiet_lock_free (ev : event) : quiet ev -> lock_free ev.
Proof. destruct ev; simpl; tauto. Qed.

Lemma emitRunning_lock_free (ext : Externals) (p : pod) (pod : Pod) :
  emits lock_free (emitRunning ext p pod).
Proof.
  apply emitRunning_emits; try (intros; exact I).
  intros _. split; [apply quiet_lock_free | split; intros; exact I].
Qed.

Lemma defer_unlock_trace {A : Type} (body : Go A) (tr : list event) :
  snd (defer (emit EvRUnlock) body tr) = snd (body tr) ++ [EvRUnlock].
Proof. unfold defer. destruct (body tr) as [[a | msg] tr']; reflexivity. Qed.

(** X7. OnAdd, OnUpdate and OnDelete take the read lock first and release it
    last, also when the work in between panics, and touch the lock nowhere
    else. *)
Theorem handlers_hold_the_read_lock (ext : Externals) (p : pod) (pod : Pod)
    (tr : list event) :
  (exists evs, since tr (OnAdd ext p pod) = [EvRLock] ++ evs ++ [EvRUnlock]
               /\ Forall lock_free evs)
  /\ (exists evs, since tr (OnUpdate ext p pod) = [EvRLock] ++ evs ++ [EvRUnlock]
                  /\ Forall lock_free evs)
  /\ (exists evs, since tr (OnDelete p pod) = [EvRLock] ++ evs ++ [EvRUnlock]
                  /\ Forall lock_free evs).
Proof.
  assert (Hwrap : forall body : Go unit, emits lock_free body ->
            exists evs, since tr (emit EvRLock;; defer (emit EvRUnlock) body)
                        = [EvRLock] ++ evs ++ [EvRUnlock] /\ Forall lock_free evs).
  { intros body Hbody. destruct (Hbody (tr ++ [EvRLock])) as (evs & Heq & Hfree).
    exists evs. split; [| exact Hfree].
    apply since_app. rewrite bind_emit, defer_unlock_trace, Heq, <- !app_assoc. reflexivity. }
  split; [| split]; apply Hwrap.
  - unfold Logf. apply emits_bind; [apply emits_emit; exact I | intros _].
    apply emitRunning_lock_free.
  - unfold unlockedUpdate, Logf. apply emits_bind; [apply emits_emit; exact I | intros _].
    apply emitRunning_lock_free.
  - unfold Logf. apply emits_bind; [apply emits_emit; exact I | intros _].
    apply emits_emit. exact I.
Qed.

(** X8. unlockedUpdate, the entry for the node and namespace updaters that
    already hold the lock, never takes or releases the lock itself. *)
Theorem unlockedUpdate_takes_no_lock (ext : Externals) (p : pod) (pod : Pod)
    (tr : list event) :
  Forall lock_free (since tr (unlockedUpdate ext p pod)).
Proof.
  apply emits_since. unfold unlockedUpdate, Logf.
  apply emits_bind; [apply emits_emit; exact I | intros _]. apply emitRunning_lock_free.
Qed.

(** X9. All generateContainerData ever asks of the registry is AddOrUpdate,
    at container priority, under the identity of a container of the pod that
    has a runtime identifier; it removes nothing, arms no timer, and touches
    neither watchers nor the lock. *)
Theorem generateContainerData_traffic (ext : Externals) (pod : Pod) (kubeMetaGen : MetaGen)
    (namespaceAnnotations : M) (client : Sender) (tr : list event) :
  Forall (container_traffic ext pod)
         (since tr (generateContainerData ext pod kubeMetaGen namespaceAnnotations client)).
Proof.
  apply emits_since. apply generateContainerData_emits; try (intros; exact I).
  - intros _. split; [| split; intros; exact I]. intros ev. destruct ev; simpl; tauto.
  - intros _ c m procs Hc HID. simpl. eauto.
Qed.

Lemma emitStopped_run (p : pod) (pod : Pod) (tr : list event) :
  emitStopped p pod tr = (Done tt, tr ++ map EvRemove (stop_ids pod)).
Proof.
  unfold emitStopped, mbind, Go_bind.
  change (comm_Remove (pod_UID pod) tr) with (Done tt, tr ++ [EvRemove (pod_UID pod)]).
  cbv iota beta. rewrite !for_range_Remove. unfold stop_ids.
  rewrite map_cons, !map_app, !map_map, <- !app_assoc. reflexivity.
Qed.

Lemma removed_Remove (ids : list string) : removed (map EvRemove ids) = ids.
Proof. induction ids as [| id ids IH]; [reflexivity |]. unfold removed in *. simpl. f_equal. exact IH. Qed.

Lemma removable_published (pod : Pod) (evs : list event) (id : string) (priority : Z) :
  Forall (removable pod) evs -> (id, priority) ∈ published evs -> id ∈ stop_ids pod.
Proof.
  induction 1 as [| ev evs Hev _ IH]; [intros Hin; inversion Hin |].
  destruct ev; simpl in *; try exact IH.
  intros Hin. apply elem_of_cons in Hin as [[= -> ->] | Hin]; [exact Hev | exact (IH Hin)].
Qed.

(** X10. If every container of the pod is one of its spec or init containers,
    every identity emitRunning publishes for the pod is among the identities
    emitStopped removes for it. *)
Theorem published_identities_are_removed (ext : Externals) (p : pod) (pod : Pod)
    (tr tr' : list event) (id : string) (priority : Z) :
  (forall c, c ∈ GetContainersInPod ext pod ->
     Spec c ∈ pod_Containers pod ++ pod_InitContainers pod) ->
  (id, priority) ∈ published (since tr (emitRunning ext p pod)) ->
  id ∈ removed (since tr' (emitStopped p pod)).
Proof.
  intros Hspec Hin.
  assert (Hstop : since tr' (emitStopped p pod) = map EvRemove (stop_ids pod)).
  { apply since_app. rewrite emitStopped_run. reflexivity. }
  rewrite Hstop, removed_Remove.
  assert (Hem : emits (removable pod) (emitRunning ext p pod)).
  { apply emitRunning_emits; try (intros; exact I).
    - intros _. split; [| split; intros; exact I]. intros ev. destruct ev; simpl; tauto.
    - intros _ c m procs Hc _. simpl. unfold stop_ids, eventID_of. right.
      apply list_elem_of_fmap. exists (Spec c). split; [reflexivity | apply Hspec, Hc].
    - intros m procs. simpl. left. }
  eapply removable_published; [apply (emits_since _ _ tr Hem) | exact Hin].
Qed.

Lemma published_identities_are_removed_witness :
  "abc.app" ∈ removed (since [] (emitStopped
                                   (sample_eventer sample_metagen None
                                      (sender_answers 200 "created"))
                                   (sample_pod []))).
Proof.
  apply (published_identities_are_removed (sample_ext goerrors_As)
           (sample_eventer sample_metagen None (sender_answers 200 "created"))
           (sample_pod []) [] [] "abc.app" 2).
  - intros c Hc. apply list_elem_of_fmap in Hc as (s & -> & Hs). exact Hs.
  - apply list_elem_of_In. vm_compute. right. left. reflexivity.
Defined.

Lemma processors_fold (fields : list (string * value)) (init : list M) :
  fold_left (fun processors '(field, metaMap) => processors ++ [add_fields metaMap field])
            fields init
  = init ++ map (fun fv => add_fields fv.2 fv.1) fields.
Proof.
  revert init. induction fields as [| [field metaMap] fields IH]; intros init; simpl.
  - symmetry. apply app_nil_r.
  - rewrite IH, <- app_assoc. reflexivity.
Qed.

(** X11. For a pod whose generated tree has a kubernetes map, emitRunning
    publishes the pod before any container: one AddOrUpdate under the pod UID
    at pod priority, whose mapping carries the eventer's scope and otherwise
    the generated kubernetes fields, with one add_fields processor per
    top-level field of the generated tree; the containers follow. *)
Theorem emitRunning_publishes_pod_first (ext : Externals) (p : pod) (pod : Pod)
    (tr : list event) (kubemetaMap : M) :
  M_GetValue (metagen p pod []) "kubernetes" = inl (VMap kubemetaMap) ->
  exists m procs,
    emitRunning ext p pod tr
    = generateContainerData ext pod (metagen p)
        (PodNamespaceAnnotations ext pod (namespaceWatcher p)) (fclient p)
        (tr ++ [EvAddOrUpdate (pod_UID pod) (PodPriority ext) m procs;
                EvLog "info" "pod emmit" None])
    /\ m !! "scope" = Some (VStr (scope p))
    /\ (forall key, key <> "scope" -> key <> "annotations" -> key <> "namespace_annotations" ->
        m !! key = kubemetaMap !! key)
    /\ procs = map (fun fv => add_fields fv.2 fv.1) (map_to_list (metagen p pod [])).
Proof.
  intros Hmeta. unfold emitRunning, emitContainers, generatePodData. rewrite Hmeta.
  eexists. eexists. split; [| split; [| split]].
  - go_step. unfold comm_AddOrUpdate, emit. rewrite <- !app_assoc. simpl. reflexivity.
  - apply lookup_insert_eq.
  - intros key Hs Ha Hn. rewrite !lookup_insert_ne by congruence. unfold M_Clone.
    destruct (negb _); [rewrite lookup_insert_ne by congruence |]; reflexivity.
  - rewrite processors_fold. reflexivity.
Qed.

Lemma emitRunning_publishes_pod_first_witness :
  published (since [] (emitRunning (sample_ext goerrors_As)
                         (sample_eventer sample_metagen None (sender_answers 200 "created"))
                         (sample_pod [])))
  = [("abc", 1); ("abc.app", 2); ("abc.init1", 2)].
Proof.
  destruct (emitRunning_publishes_pod_first (sample_ext goerrors_As)
              (sample_eventer sample_metagen None (sender_answers 200 "created"))
              (sample_pod []) [] {[ "pod" := VMap {[ "name" := VStr "web" ]} ]} eq_refl)
    as (m & procs & Hrun & _).
  unfold since. rewrite Hrun. vm_compute. reflexivity.
Defined.

(* ===================================================================== *)
(** ** Reading annotations back from the tree *)
(* ===================================================================== *)

Lemma segments_cut (key : string) :
  segments key = match cut_dot key with
                 | Some (h, r) => h :: segments r
                 | None => [key]
                 end.
Proof.
  induction key as [| c key IH]; simpl; [reflexivity |].
  destruct (Ascii.eqb c "."); [reflexivity |].
  rewrite IH. destruct (cut_dot key) as [[k tl] |]; reflexivity.
Qed.

Lemma independent_sym (k k' : string) : independent k k' -> independent k' k.
Proof. intros [H1 H2]. split; assumption. Qed.

Lemma independent_ne (k k' : string) : independent k k' -> k <> k'.
Proof. intros [H _] ->. apply H. reflexivity. Qed.

Lemma independent_head (k k' h r : string) :
  independent k k' -> cut_dot k' = Some (h, r) -> k <> h.
Proof.
  intros [H _] Hcut ->. apply H.
  rewrite (segments_cut h), (cut_dot_head _ _ _ Hcut), (segments_cut k'), Hcut.
  exists (segments r). reflexivity.
Qed.

Lemma independent_rest (k k' h r r' : string) :
  independent k k' -> cut_dot k = Some (h, r) -> cut_dot k' = Some (h, r') ->
  independent r r'.
Proof.
  intros [H1 H2] Hk Hk'. rewrite (segments_cut k), (segments_cut k'), Hk, Hk' in *.
  split; intros Hp; [apply H1 | apply H2]; apply prefix_cons, Hp.
Qed.

Lemma cut_dot_ne_head (k h r : string) : cut_dot k = Some (h, r) -> k <> h.
Proof. intros Hcut ->. rewrite (cut_dot_head _ _ _ Hcut) in Hcut. discriminate. Qed.

Lemma mapFind_empty (n : nat) (k : string) : fst (mapFind n k ∅) = None.
Proof.
  destruct n; simpl; rewrite lookup_empty; destruct (cut_dot k) as [[h r] |]; try reflexivity;
    rewrite lookup_empty; reflexivity.
Qed.

Lemma mapFind_alternative (n : nat) (k s : string) (m : M) :
  fst (mapFind n k {[ alternativeKey := VStr s ]}) <> Some (VMap m).
Proof.
  destruct n; simpl.
  - destruct (decide (k = alternativeKey)) as [-> | Hne].
    + rewrite lookup_singleton_eq. discriminate.
    + rewrite lookup_singleton_ne by congruence.
      destruct (cut_dot k) as [[h r] |]; [| discriminate].
      destruct (decide (h = alternativeKey)) as [-> | Hh].
      * rewrite lookup_singleton_eq. discriminate.
      * rewrite lookup_singleton_ne by congruence. discriminate.
  - destruct (decide (k = alternativeKey)) as [-> | Hne].
    + rewrite lookup_singleton_eq. discriminate.
    + rewrite lookup_singleton_ne by congruence.
      destruct (cut_dot k) as [[h r] |]; [| discriminate].
      destruct (decide (h = alternativeKey)) as [-> | Hh].
      * rewrite lookup_singleton_eq. discriminate.
      * rewrite lookup_singleton_ne by congruence. discriminate.
Qed.

(** Reading back what Put has just stored: the value is found under its key,
    unless a map was found there before. *)
Lemma safemapstr_put_found (n : nat) (data : M) (k : string) (v : value) :
  (String.length k <= n)%nat ->
  (forall m, fst (mapFind n k data) <> Some (VMap m)) ->
  mapFind n k (safemapstr_put n data k v) = (Some v, None).
Proof.
  revert data k. induction n as [| n IH]; intros data k Hlen Hfree.
  - simpl in *. rewrite (cut_dot_empty k) in * by lia.
    destruct (data !! k) as [[s | old] |] eqn:Hk; simpl in *.
    + rewrite lookup_insert_eq. reflexivity.
    + exfalso. exact (Hfree old eq_refl).
    + rewrite lookup_insert_eq. reflexivity.
  - simpl in *. destruct (data !! k) as [[s | old] |] eqn:Hk; simpl in *.
    + rewrite lookup_insert_eq. reflexivity.
    + exfalso. exact (Hfree old eq_refl).
    + destruct (cut_dot k) as [[h r] |] eqn:Hcut.
      * rewrite lookup_insert_ne by (intros ->; exact (cut_dot_ne_head _ _ _ Hcut eq_refl)).
        rewrite Hk, lookup_insert_eq.
        apply IH; [apply cut_dot_shorter in Hcut; lia |].
        intros m. destruct (data !! h) as [[s | sub] |]; simpl.
        -- apply mapFind_alternative.
        -- apply Hfree.
        -- rewrite mapFind_empty. discriminate.
      * rewrite lookup_insert_eq. reflexivity.
Qed.

(** Storing under an independent key neither hides what a key leads to nor
    puts a map there. *)
Lemma safemapstr_put_keeps (n n' : nat) (data : M) (k k' : string) (v' : value) :
  (String.length k <= n)%nat -> (String.length k' <= n')%nat -> independent k k' ->
  (forall w, mapFind n k data = (Some w, None) ->
     mapFind n k (safemapstr_put n' data k' v') = (Some w, None))
  /\ (forall m, fst (mapFind n k (safemapstr_put n' data k' v')) = Some (VMap m) ->
        fst (mapFind n k data) = Some (VMap m)).
Proof.
  revert n' data k k'. induction n as [| n IH]; intros n' data k k' Hlen Hlen' Hind.
  - (* k is empty: no dot *)
    assert (Hk0 : cut_dot k = None) by (apply cut_dot_empty; lia).
    assert (Hsame : forall c x, c <> k -> mapFind 0 k (<[c := x]> data) = mapFind 0 k data).
    { intros c x Hc. simpl. rewrite lookup_insert_ne by exact Hc. rewrite Hk0. reflexivity. }
    assert (Hne := independent_ne _ _ Hind).
    destruct n' as [| n'']; simpl safemapstr_put.
    + destruct (data !! k') as [old |]; [destruct (tryToMapStr old) |];
        [| | destruct (cut_dot k') as [[h' r'] |] eqn:Hcut'];
        try (rewrite Hsame by congruence; auto).
      rewrite Hsame by (intros ->; exact (independent_head _ _ _ _ Hind Hcut' eq_refl)). auto.
    + destruct (data !! k') as [old |]; [destruct (tryToMapStr old) |];
        [| | destruct (cut_dot k') as [[h' r'] |] eqn:Hcut'];
        try (rewrite Hsame by congruence; auto).
      rewrite Hsame by (intros ->; exact (independent_head _ _ _ _ Hind Hcut' eq_refl)). auto.
  - assert (Hne := independent_ne _ _ Hind).
    assert (Hsame : forall c x, c <> k -> c <> head_key k ->
              mapFind (S n) k (<[c := x]> data) = mapFind (S n) k data).
    { intros c x Hc Hh. simpl. rewrite lookup_insert_ne by exact Hc.
      destruct (data !! k); [reflexivity |]. unfold head_key in Hh.
      destruct (cut_dot k) as [[h r] |]; [| reflexivity].
      rewrite lookup_insert_ne by exact Hh. reflexivity. }
    assert (Hhead : k' <> head_key k).
    { unfold head_key. destruct (cut_dot k) as [[h r] |] eqn:Hcut; [| congruence].
      exact (independent_head _ _ _ _ (independent_sym _ _ Hind) Hcut). }
    assert (Hstep : forall x, mapFind (S n) k (<[k' := x]> data) = mapFind (S n) k data)
      by (intros x; apply Hsame; congruence).
    destruct n' as [| n'']; simpl safemapstr_put.
    + rewrite (cut_dot_empty k') by lia.
      destruct (data !! k') as [old |]; [destruct (tryToMapStr old) |]; rewrite Hstep; auto.
    + destruct (data !! k') as [old |] eqn:Hk'; [destruct (tryToMapStr old); rewrite Hstep; auto |].
      destruct (cut_dot k') as [[h' r'] |] eqn:Hcut'; [| rewrite Hstep; auto].
      assert (Hkh : k <> h') by exact (independent_head _ _ _ _ Hind Hcut').
      destruct (decide (h' = head_key k)) as [Heq | Hdiff];
        [| rewrite Hsame by congruence; auto].
      unfold head_key in Heq. destruct (cut_dot k) as [[h r] |] eqn:Hcut; [| congruence].
      subst h'.
      assert (Hr : (String.length r <= n)%nat) by (apply cut_dot_shorter in Hcut; lia).
      assert (Hr' : (String.length r' <= n'')%nat) by (apply cut_dot_shorter in Hcut'; lia).
      assert (Hrest := independent_rest _ _ _ _ _ Hind Hcut Hcut').
      simpl mapFind. rewrite lookup_insert_ne by congruence. rewrite Hcut, lookup_insert_eq.
      destruct (data !! k) as [w0 |]; [auto |].
      destruct (data !! h) as [[s | sub] |]; simpl.
      * split; [discriminate |]. intros m Hm. exfalso.
        apply (IH n'' _ r r' Hr Hr' Hrest) in Hm. exact (mapFind_alternative _ _ _ _ Hm).
      * apply IH; assumption.
      * split; [discriminate |]. intros m Hm. exfalso.
        apply (IH n'' _ r r' Hr Hr' Hrest) in Hm. rewrite mapFind_empty in Hm. discriminate.
Qed.

Section RoundTrip.
Context (k v : string).

Lemma annotations_found_stays (l : list (string * string)) (acc : M) :
  (forall kv, kv ∈ l -> kv = (k, v) \/ independent k kv.1) ->
  mapFind (String.length k) k acc = (Some (VStr v), None) ->
  mapFind (String.length k) k (fold_left (fun annotations '(k0, v0) => safemapstr_Put annotations k0 (VStr v0)) l acc) = (Some (VStr v), None).
Proof.
  revert acc. induction l as [| [k0 v0] l IH]; intros acc Hl Hacc; [exact Hacc |].
  simpl. apply IH; [intros kv Hkv; apply Hl; right; exact Hkv |].
  destruct (Hl (k0, v0)) as [[= -> ->] | Hind]; [left | |].
  - apply safemapstr_put_found; [lia |]. intros m. rewrite Hacc. discriminate.
  - apply (safemapstr_put_keeps _ _ acc k k0 (VStr v0)); [lia | lia | exact Hind | exact Hacc].
Qed.

Lemma annotations_found (l : list (string * string)) (acc : M) :
  (forall kv, kv ∈ l -> kv = (k, v) \/ independent k kv.1) ->
  (k, v) ∈ l ->
  (forall m, fst (mapFind (String.length k) k acc) <> Some (VMap m)) ->
  mapFind (String.length k) k (fold_left (fun annotations '(k0, v0) => safemapstr_Put annotations k0 (VStr v0)) l acc) = (Some (VStr v), None).
Proof.
  revert acc. induction l as [| [k0 v0] l IH]; intros acc Hl Hin Hacc; [inversion Hin |].
  simpl. destruct (Hl (k0, v0)) as [[= -> ->] | Hind]; [left | |].
  - apply annotations_found_stays; [intros kv Hkv; apply Hl; right; exact Hkv |].
    apply safemapstr_put_found; [lia | exact Hacc].
  - apply IH.
    + intros kv Hkv; apply Hl; right; exact Hkv.
    + apply elem_of_cons in Hin as [[= -> ->] | Hin]; [| exact Hin].
      exfalso. exact (independent_ne _ _ Hind eq_refl).
    + intros m Hm.
      apply (safemapstr_put_keeps _ _ acc k k0 (VStr v0)) in Hm; [| lia | lia | exact Hind].
      exact (Hacc m Hm).
Qed.

End RoundTrip.

Lemma annotations_read_back (l : list (string * string)) (k v : string) :
  (k, v) ∈ l ->
  (forall kv, kv ∈ l -> kv = (k, v) \/ independent k kv.1) ->
  mapFind (String.length k) k
          (fold_left (fun annotations '(k0, v0) => safemapstr_Put annotations k0 (VStr v0)) l ∅)
  = (Some (VStr v), None).
Proof.
  intros Hin Hl. apply annotations_found; [exact Hl | exact Hin |].
  intros m. rewrite mapFind_empty. discriminate.
Qed.

Lemma mapFind_Delete_kubectl (n : nat) (k : string) (m : M) :
  head_key k <> "kubectl" -> mapFind n k (M_Delete m "kubectl") = mapFind n k m.
Proof.
  intros Hh. unfold M_Delete. simpl. destruct (m !! "kubectl") eqn:Hm; [| reflexivity].
  assert (Hk : k <> "kubectl").
  { intros ->. apply Hh. reflexivity. }
  unfold head_key in Hh.
  destruct n; simpl; rewrite lookup_delete_ne by congruence;
    destruct (m !! k); try reflexivity;
    destruct (cut_dot k) as [[h r] |]; try reflexivity;
    rewrite lookup_delete_ne by congruence; reflexivity.
Qed.

(** X12. For such a pod generatePodData answers under the pod UID with a
    mapping whose annotations entry is the tree built from the pod's
    annotations: its top-level keys are the first segments of the annotation
    keys (kubectl included), and every annotation whose key is independent of
    the other annotation keys is read back from the tree, under its dotted
    key, with its own value.  The namespace_annotations entry is the
    namespace overlay when that is not empty. *)
Theorem generatePodData_annotations (pod : Pod) (kubeMetaGen : MetaGen)
    (namespaceAnnotations kubemetaMap : M) :
  M_GetValue (kubeMetaGen pod []) "kubernetes" = inl (VMap kubemetaMap) ->
  exists data m,
    generatePodData pod kubeMetaGen namespaceAnnotations = Done data
    /\ uid data = pod_UID pod
    /\ mapping data = Some m
    /\ m !! "annotations" = Some (VMap (annotation_tree pod))
    /\ (forall k, k ∈ dom (annotation_tree pod)
                  <-> exists kv, kv ∈ pod_Annotations pod /\ head_key kv.1 = k)
    /\ (forall k v, (k, v) ∈ pod_Annotations pod ->
          (forall kv, kv ∈ pod_Annotations pod -> kv = (k, v) \/ independent k kv.1) ->
          M_GetValue (annotation_tree pod) k = inl (VStr v))
    /\ m !! "namespace_annotations"
       = (if (size namespaceAnnotations =? 0)%nat then kubemetaMap !! "namespace_annotations"
          else Some (VMap namespaceAnnotations)).
Proof.
  intros Hmeta. unfold generatePodData. rewrite Hmeta.
  eexists. eexists. split; [reflexivity |]. split; [reflexivity |].
  split; [reflexivity |]. split; [apply lookup_insert_eq |]. split; [| split].
  - intros k. unfold annotation_tree. rewrite annotations_dom.
    + rewrite dom_empty_L, elem_of_empty. tauto.
    + intros k' Hk'. rewrite dom_empty_L in Hk'. apply elem_of_empty in Hk'. contradiction.
  - intros k v Hin Hind. unfold M_GetValue, annotation_tree.
    rewrite (annotations_read_back _ k v Hin Hind). reflexivity.
  - rewrite lookup_insert_ne by discriminate. unfold M_Clone.
    destruct (size namespaceAnnotations =? 0)%nat; simpl;
      [reflexivity | apply lookup_insert_eq].
Qed.

Lemma generatePodData_annotations_witness :
  exists data, generatePodData (sample_pod [("kubectl.kubernetes.io/restartedAt", "now")])
                               sample_metagen ∅ = Done data
               /\ uid data = "abc"
               /\ M_GetValue (annotation_tree
                                (sample_pod [("kubectl.kubernetes.io/restartedAt", "now")]))
                             "kubectl.kubernetes.io/restartedAt" = inl (VStr "now").
Proof.
  destruct (generatePodData_annotations
              (sample_pod [("kubectl.kubernetes.io/restartedAt", "now")]) sample_metagen ∅
              {[ "pod" := VMap {[ "name" := VStr "web" ]} ]} eq_refl)
    as (data & m & Hrun & Huid & _ & _ & _ & Hback & _).
  exists data. split; [exact Hrun |]. split; [exact Huid |].
  apply Hback; [left |].
  intros kv Hkv. left. apply list_elem_of_singleton in Hkv. exact Hkv.
Defined.

Lemma hinted_Permutation (pod pod' : Pod) :
  pod_Annotations pod ≡ₚ pod_Annotations pod' -> hinted pod = hinted pod'.
Proof.
  intros Hperm. unfold hinted. apply eq_true_iff_eq. rewrite !existsb_exists.
  split; intros (kv & Hin & Hk); exists kv; (split; [| exact Hk]);
    apply list_elem_of_In; apply list_elem_of_In in Hin.
  - rewrite <- Hperm. exact Hin.
  - rewrite Hperm. exact Hin.
Qed.

(** X13. The hint decision does not depend on the order in which the range
    over the pod's annotation map yields the entries. *)
Theorem hint_decision_ignores_annotation_order (pod pod' : Pod) :
  pod_Annotations pod ≡ₚ pod_Annotations pod' ->
  checkForHints
    (M_Delete (fold_left (fun annotations '(k, v) => safemapstr_Put annotations k (VStr v))
                         (pod_Annotations pod) ∅) "kubectl")
  = checkForHints
      (M_Delete (fold_left (fun annotations '(k, v) => safemapstr_Put annotations k (VStr v))
                           (pod_Annotations pod') ∅) "kubectl").
Proof. intros Hperm. rewrite !checkForHints_hinted. apply hinted_Permutation, Hperm. Qed.

Lemma hint_decision_ignores_annotation_order_witness :
  checkForHints (container_annotations
                   (sample_pod [("app.kubernetes.io/name", "web");
                                ("elastic-co-hints/package", "nginx")]))
  = checkForHints (container_annotations
                     (sample_pod [("elastic-co-hints/package", "nginx");
                                  ("app.kubernetes.io/name", "web")])).
Proof.
  apply (hint_decision_ignores_annotation_order
           (sample_pod [("app.kubernetes.io/name", "web");
                        ("elastic-co-hints/package", "nginx")])
           (sample_pod [("elastic-co-hints/package", "nginx");
                        ("app.kubernetes.io/name", "web")])).
  apply perm_swap.
Defined.

(* ===================================================================== *)
(** ** Further properties of the emitted mappings *)
(* ===================================================================== *)

Lemma ports_fold_shape (ports : list ContainerPort) (cm0 k0 : M) :
  fold_left (fun '(containerMeta, k8sMapping) (port : ContainerPort) =>
               let containerMeta : M :=
                 M_Put containerMeta "port" (VStr (Sprintf_v (port_ContainerPort port))) in
               let containerMeta :=
                 M_Put containerMeta "port_name" (VStr (port_Name port)) in
               (containerMeta, <["container" := VMap containerMeta]> (k8sMapping : M)))
            ports (cm0, <["container" := VMap cm0]> k0)
  = (let cm := fold_left (fun (containerMeta : M) port =>
                            <["port_name" := VStr (port_Name port)]>
                              (<["port" := VStr (Sprintf_v (port_ContainerPort port))]>
                                 containerMeta)) ports cm0 in
     (cm, <["container" := VMap cm]> k0)).
Proof.
  revert cm0. induction ports as [| p ports IH]; intros cm0; simpl; [reflexivity |].
  rewrite !M_Put_dotfree by reflexivity. rewrite insert_insert_eq. apply IH.
Qed.

Lemma generateContainerData_mappings (ext : Externals) (pod : Pod) (kubeMetaGen : MetaGen)
    (namespaceAnnotations : M) (client : Sender) :
  emits (carries (emitted_for ext pod kubeMetaGen namespaceAnnotations))
        (generateContainerData ext pod kubeMetaGen namespaceAnnotations client).
Proof.
  unfold generateContainerData, Println.
  apply emits_bind; [apply emits_emit, quiet_carries; exact I | intros _].
  apply emits_bind; [apply emits_emit, quiet_carries; exact I | intros _].
  apply emits_for_range. intros c Hc. unfold continue.
  destruct (String.eqb_spec (ID c) "") as [| HID]; [apply emits_ret |].
  destruct (M_GetValue _ "kubernetes") as [[s | kubemetaMap] | err] eqn:Hget;
    [apply emits_panic | | apply emits_ret].
  match goal with
  | |- context [let '(_, _) := ?x in _] => destruct x as [containerMeta k8sMapping] eqn:Hports
  end.
  assert (HP : emitted_for ext pod kubeMetaGen namespaceAnnotations k8sMapping).
  { exists c, kubemetaMap. split; [exact Hc |]. split; [exact HID |]. split; [exact Hget |].
    unfold container_mapping, containerMeta_of, container_annotations, M_Clone in *.
    destruct (c_Ports (Spec c)) as [| p ports]; simpl in Hports.
    - injection Hports as _ <-. reflexivity.
    - rewrite !M_Put_dotfree in Hports by reflexivity.
      rewrite ports_fold_shape in Hports. injection Hports as _ <-. reflexivity. }
  apply emits_bind; [apply emits_emit, quiet_carries; exact I | intros _].
  apply emits_bind; [apply emits_emit, quiet_carries; exact I | intros _].
  destruct (checkForHints _).
  - apply emits_bind; [apply postMappingstoFleet_carries, HP | intros [resp err]].
    apply emits_emit, quiet_carries. simpl. discriminate.
  - apply emits_emit. intros m [= <-]. exact HP.
Qed.

Lemma emitted_since (ext : Externals) (pod : Pod) (kubeMetaGen : MetaGen)
    (namespaceAnnotations : M) (client : Sender) (tr : list event) (P : M -> Prop) :
  (forall m, emitted_for ext pod kubeMetaGen namespaceAnnotations m -> P m) ->
  Forall P (emitted_mappings
              (since tr (generateContainerData ext pod kubeMetaGen namespaceAnnotations client))).
Proof.
  intros HP.
  destruct (generateContainerData_mappings ext pod kubeMetaGen namespaceAnnotations client tr)
    as (evs & Heq & Hall).
  rewrite (since_app tr evs _ Heq). eapply Forall_impl; [apply carries_emitted, Hall | exact HP].
Qed.

Lemma M_Delete_kubectl_gone (m : M) : M_Delete m "kubectl" !! "kubectl" = None.
Proof.
  unfold M_Delete. simpl. destruct (m !! "kubectl") eqn:Hk; [apply lookup_delete_eq | exact Hk].
Qed.

(** X14. Every mapping that leaves generateContainerData has, as its
    annotations entry, the tree built from the pod's annotations with the
    top-level kubectl entry deleted: every other first segment of an
    annotation key is a top-level key of it, and every annotation outside
    kubectl whose key is independent of the other annotation keys is read
    back from it, under its dotted key, with its own value. *)
Theorem emitted_annotations_drop_kubectl (ext : Externals) (pod : Pod) (kubeMetaGen : MetaGen)
    (namespaceAnnotations : M) (client : Sender) (tr : list event) :
  Forall (fun m => m !! "annotations" = Some (VMap (container_annotations pod)))
         (emitted_mappings
            (since tr (generateContainerData ext pod kubeMetaGen namespaceAnnotations client)))
  /\ container_annotations pod = M_Delete (annotation_tree pod) "kubectl"
  /\ container_annotations pod !! "kubectl" = None
  /\ (forall k, k <> "kubectl" ->
        (k ∈ dom (container_annotations pod)
         <-> exists kv, kv ∈ pod_Annotations pod /\ head_key kv.1 = k))
  /\ (forall k v, (k, v) ∈ pod_Annotations pod -> head_key k <> "kubectl" ->
        (forall kv, kv ∈ pod_Annotations pod -> kv = (k, v) \/ independent k kv.1) ->
        M_GetValue (container_annotations pod) k = inl (VStr v)).
Proof.
  split; [| split; [reflexivity | split; [apply M_Delete_kubectl_gone | split]]].
  - apply emitted_since. intros m (c & kubemetaMap & _ & _ & _ & ->).
    unfold container_mapping.
    rewrite lookup_insert_ne by discriminate. apply lookup_insert_eq.
  - intros k Hk. unfold container_annotations. rewrite M_Delete_kubectl by exact Hk.
    rewrite annotations_dom.
    + rewrite dom_empty_L, elem_of_empty. tauto.
    + intros k' Hk'. rewrite dom_empty_L in Hk'. apply elem_of_empty in Hk'. contradiction.
  - intros k v Hin Hh Hind. unfold M_GetValue, container_annotations.
    rewrite mapFind_Delete_kubectl by exact Hh.
    rewrite (annotations_read_back _ k v Hin Hind). reflexivity.
Qed.

Lemma containerMeta_fold_lookup (ports : list ContainerPort) (cm0 : M) (key : string) :
  key <> "port" -> key <> "port_name" ->
  fold_left (fun (containerMeta : M) port =>
               <["port_name" := VStr (port_Name port)]>
                 (<["port" := VStr (Sprintf_v (port_ContainerPort port))]> containerMeta))
            ports cm0 !! key = cm0 !! key.
Proof.
  intros Hp Hn. revert cm0. induction ports as [| p ports IH]; intros cm0; simpl; [reflexivity |].
  rewrite IH, !lookup_insert_ne by congruence. reflexivity.
Qed.

Lemma containerMeta_fold_dom (ports : list ContainerPort) (cm0 : M) :
  dom (fold_left (fun (containerMeta : M) port =>
                    <["port_name" := VStr (port_Name port)]>
                      (<["port" := VStr (Sprintf_v (port_ContainerPort port))]> containerMeta))
                 ports cm0)
  = dom cm0 ∪ (if ports is [] then ∅ else {[ "port"; "port_name" ]}).
Proof.
  revert cm0. induction ports as [| p ports IH]; intros cm0; simpl.
  - symmetry. apply (right_id_L ∅ (∪)).
  - rewrite IH, !dom_insert_L. apply set_eq. intros k.
    destruct ports; rewrite !elem_of_union, ?elem_of_empty, !elem_of_singleton; tauto.
Qed.

(** X15. In every mapping that leaves generateContainerData,
    kubernetes.container holds the image and the runtime of the container it
    was made for, and its keys are exactly id, name, image and runtime,
    together with port and port_name when the container declares a port. *)
Theorem emitted_container_entry_keys (ext : Externals) (pod : Pod) (kubeMetaGen : MetaGen)
    (namespaceAnnotations : M) (client : Sender) (tr : list event) :
  Forall (fun m => exists c containerMeta,
            c ∈ GetContainersInPod ext pod /\ ID c <> ""
            /\ m !! "container" = Some (VMap containerMeta)
            /\ containerMeta !! "image" = Some (VStr (c_Image (Spec c)))
            /\ containerMeta !! "runtime" = Some (VStr (Runtime c))
            /\ dom containerMeta
               = {[ "id"; "name"; "image"; "runtime" ]}
                 ∪ (if c_Ports (Spec c) is [] then ∅ else {[ "port"; "port_name" ]}))
         (emitted_mappings
            (since tr (generateContainerData ext pod kubeMetaGen namespaceAnnotations client))).
Proof.
  apply emitted_since. intros m (c & kubemetaMap & Hc & HID & _ & ->).
  exists c, (containerMeta_of c). split; [exact Hc |]. split; [exact HID |].
  unfold container_mapping. split; [apply lookup_insert_eq |].
  unfold containerMeta_of. rewrite !containerMeta_fold_lookup by discriminate.
  split; [reflexivity |]. split; [reflexivity |].
  rewrite containerMeta_fold_dom. f_equal.
Qed.

(** X16. Every mapping that leaves generateContainerData keeps the generated
    kubernetes fields of its container under all keys but container,
    annotations and namespace_annotations, and carries the namespace overlay
    under namespace_annotations when that overlay is not empty. *)
Theorem emitted_mapping_keeps_metadata (ext : Externals) (pod : Pod) (kubeMetaGen : MetaGen)
    (namespaceAnnotations : M) (client : Sender) (tr : list event) :
  Forall (fun m => exists c kubemetaMap,
            c ∈ GetContainersInPod ext pod
            /\ M_GetValue (kubeMetaGen pod [WithFields "container.name" (c_Name (Spec c))])
                          "kubernetes" = inl (VMap kubemetaMap)
            /\ (forall key, key <> "container" -> key <> "annotations" ->
                  key <> "namespace_annotations" -> m !! key = kubemetaMap !! key)
            /\ m !! "namespace_annotations"
               = (if (size namespaceAnnotations =? 0)%nat
                  then kubemetaMap !! "namespace_annotations"
                  else Some (VMap namespaceAnnotations)))
         (emitted_mappings
            (since tr (generateContainerData ext pod kubeMetaGen namespaceAnnotations client))).
Proof.
  apply emitted_since. intros m (c & kubemetaMap & Hc & _ & Hget & ->).
  exists c, kubemetaMap. split; [exact Hc |]. split; [exact Hget |].
  unfold container_mapping. split.
  - intros key H1 H2 H3. rewrite !lookup_insert_ne by congruence.
    destruct (negb _); [rewrite lookup_insert_ne by congruence |]; reflexivity.
  - rewrite !lookup_insert_ne by discriminate.
    destruct (size namespaceAnnotations =? 0)%nat; simpl;
      [reflexivity | apply lookup_insert_eq].
Qed.

(** X17. Once the pod's hint decision is taken, an emitRunning for a hinted
    pod reaches the registry for the pod itself only, at pod priority, and
    removes nothing. *)
Theorem hinted_pod_publishes_pod_only (ext : Externals) (p : pod) (pod : Pod)
    (tr : list event) :
  hinted pod = true ->
  Forall (pod_scope_only ext pod) (since tr (emitRunning ext p pod)).
Proof.
  intros Hhint. apply emits_since. apply emitRunning_emits; try (intros; exact I).
  - intros _. split; [| split; intros; exact I]. intros ev. destruct ev; simpl; tauto.
  - intros Hno. congruence.
  - intros m procs. simpl. auto.
Qed.

Lemma hinted_pod_publishes_pod_only_witness :
  Forall (pod_scope_only (sample_ext goerrors_As)
            (sample_pod [("elastic-co-hints/package", "nginx")]))
         (since [] (emitRunning (sample_ext goerrors_As)
                      (sample_eventer sample_metagen None (sender_answers 200 "created"))
                      (sample_pod [("elastic-co-hints/package", "nginx")]))).
Proof.
  apply (hinted_pod_publishes_pod_only (sample_ext goerrors_As)
           (sample_eventer sample_metagen None (sender_answers 200 "created"))
           (sample_pod [("elastic-co-hints/package", "nginx")]) []).
  reflexivity.
Defined.

(** X18. An emitRunning for a pod that is not hinted stays local: it looks up
    no agent info and sends no request. *)
Theorem unhinted_pod_stays_local (ext : Externals) (p : pod) (pod : Pod) (tr : list event) :
  hinted pod = false ->
  Forall offline (since tr (emitRunning ext p pod)).
Proof.
  intros Hhint. apply emits_since. apply emitRunning_emits; try (intros; exact I).
  intros Hyes. congruence.
Qed.

Lemma unhinted_pod_stays_local_witness :
  Forall offline
         (since [] (emitRunning (sample_ext goerrors_As)
                      (sample_eventer sample_metagen None (sender_answers 200 "created"))
                      (sample_pod [("app.kubernetes.io/name", "web")]))).
Proof.
  apply (unhinted_pod_stays_local (sample_ext goerrors_As)
           (sample_eventer sample_metagen None (sender_answers 200 "created"))
           (sample_pod [("app.kubernetes.io/name", "web")]) []).
  reflexivity.
Defined.

(* ===================================================================== *)
(** ** Construction of the eventer *)
(* ===================================================================== *)

(** X19. When the pod watcher can be created and the configuration unpacked,
    NewPodEventer returns an eventer with that pod watcher and the cleanup
    period of the configuration; a node or namespace watcher that cannot be
    created is logged and left nil; the eventer itself is registered with the
    pod watcher, and an updater with each optional watcher that exists and
    whose metadata is enabled. *)
Theorem NewPodEventer_builds (cons : Constructors) (cfg : Config) (scope : string)
    (fclient : Sender) (tr : list event) (w : Watcher) (rawConfig : Config) :
  let node := NewNamedWatcher cons "agent-node" ResNode (node_options cfg) in
  let namespace := NewNamedWatcher cons "agent-namespace" ResNamespace (namespace_options cfg) in
  NewNamedWatcher cons "agent-pod" ResPod (pod_options cfg) = inl w ->
  NewConfigFrom cons cfg = inl rawConfig ->
  exists p handlers,
    NewPodEventer cons cfg scope fclient tr
    = (Done (inl (p, handlers)), tr ++ create_errors node ++ create_errors namespace)
    /\ watcher p = w /\ nodeWatcher p = created node /\ namespaceWatcher p = created namespace
    /\ cleanupTimeout p = cfg_CleanupTimeout cfg
    /\ handlers
       = (w_name w, PodHandler)
         :: (if meta_Node_Enabled (cfg_AddResourceMetadata cfg)
             then option_list ((fun n => (w_name n, NodePodUpdater)) <$> created node) else [])
         ++ (if meta_Namespace_Enabled (cfg_AddResourceMetadata cfg)
             then option_list ((fun n => (w_name n, NamespacePodUpdater)) <$> created namespace)
             else []).
Proof.
  intros node namespace Hpod Hcfg. subst node namespace.
  unfold NewPodEventer, pod_options, node_options, namespace_options in *.
  rewrite Hpod. go_step.
  destruct (NewNamedWatcher cons "agent-node" _ _) as [n | e1],
           (NewNamedWatcher cons "agent-namespace" _ _) as [s | e2]; simpl;
    rewrite Hcfg; simpl; eexists; eexists;
    (split; [rewrite <- ?app_assoc, ?app_nil_r; reflexivity |]);
    repeat (split; [reflexivity |]);
    destruct (meta_Node_Enabled (cfg_AddResourceMetadata cfg)),
             (meta_Namespace_Enabled (cfg_AddResourceMetadata cfg)); reflexivity.
Qed.

Lemma NewPodEventer_builds_witness :
  exists p handlers,
    fst (NewPodEventer (sample_cons true) sample_config "node"
                       (sender_answers 200 "created") [])
    = Done (inl (p, handlers))
    /\ handlers = [("agent-pod", PodHandler); ("agent-node", NodePodUpdater);
                   ("agent-namespace", NamespacePodUpdater)].
Proof.
  destruct (NewPodEventer_builds (sample_cons true) sample_config "node"
              (sender_answers 200 "created") []
              {| w_name := "agent-pod"; w_Start := None |} sample_config eq_refl eq_refl)
    as (p & handlers & Hrun & _ & _ & _ & _ & Hhandlers).
  exists p, handlers. rewrite Hrun. split; [reflexivity | exact Hhandlers].
Defined.

(** X20. NewPodEventer fails exactly when the pod watcher cannot be created or
    the configuration cannot be unpacked; failing to create the node or the
    namespace watcher never makes it fail. *)
Theorem NewPodEventer_fails (cons : Constructors) (cfg : Config) (scope : string)
    (fclient : Sender) (tr : list event) :
  (exists err, fst (NewPodEventer cons cfg scope fclient tr) = Done (inr err))
  <-> (exists err, NewNamedWatcher cons "agent-pod" ResPod (pod_options cfg) = inr err)
      \/ (exists err, NewConfigFrom cons cfg = inr err).
Proof.
  unfold NewPodEventer, pod_options. go_step.
  destruct (NewNamedWatcher cons "agent-pod" _ _) as [w | e0]; simpl.
  - destruct (NewNamedWatcher cons "agent-node" _ _) as [n | e1],
             (NewNamedWatcher cons "agent-namespace" _ _) as [s | e2]; simpl;
      destruct (NewConfigFrom cons cfg) as [raw | e3]; simpl; split;
      try (intros [err [=]]); try (intros [[err [=]] | [err [=]]]); eauto.
  - split; eauto.
Qed.

(** X21. When neither the node watcher nor the namespace watcher can be
    created, NewPodEventer still returns an eventer, with the pod handler as
    its only registration; Start on it starts the pod watcher alone and
    returns its result, and Stop stops the pod watcher alone. *)
Theorem degraded_eventer_runs_on_pod_watcher (cons : Constructors) (cfg : Config)
    (scope : string) (fclient : Sender) (tr tr' : list event) (w : Watcher)
    (rawConfig : Config) (e1 e2 : error) :
  NewNamedWatcher cons "agent-pod" ResPod (pod_options cfg) = inl w ->
  NewNamedWatcher cons "agent-node" ResNode (node_options cfg) = inr e1 ->
  NewNamedWatcher cons "agent-namespace" ResNamespace (namespace_options cfg) = inr e2 ->
  NewConfigFrom cons cfg = inl rawConfig ->
  exists p,
    fst (NewPodEventer cons cfg scope fclient tr) = Done (inl (p, [(w_name w, PodHandler)]))
    /\ Start p tr' = (Done (w_Start w), tr' ++ [EvStart (w_name w)])
    /\ Stop p tr' = (Done tt, tr' ++ [EvStop (w_name w)]).
Proof.
  intros Hpod Hnode Hns Hcfg.
  unfold NewPodEventer, pod_options, node_options, namespace_options in *.
  rewrite Hpod. go_step. rewrite Hnode, Hns. simpl. rewrite Hcfg. simpl.
  eexists. split; [reflexivity |]. split; reflexivity.
Qed.

Lemma degraded_eventer_runs_on_pod_watcher_witness :
  exists p,
    fst (NewPodEventer (sample_cons false) sample_config "node"
                       (sender_answers 200 "created") [])
    = Done (inl (p, [("agent-pod", PodHandler)]))
    /\ Start p [] = (Done None, [EvStart "agent-pod"]).
Proof.
  destruct (degraded_eventer_runs_on_pod_watcher (sample_cons false) sample_config "node"
              (sender_answers 200 "created") [] []
              {| w_name := "agent-pod"; w_Start := None |} sample_config
              (ErrMsg "no API server") (ErrMsg "no API server")
              eq_refl eq_refl eq_refl eq_refl)
    as (p & Hrun & Hstart & _).
  exists p. split; [exact Hrun | exact Hstart].
Defined.
